(** * easyvar: attribute containers (unro.py) and the deprecation wrapper
    (deprecate.py)

    A shallow embedding of the two modules of the package.  Python objects
    are modelled by their attribute dictionaries ([__dict__]), classes by
    their method resolution order and by the special methods each class
    statement defines, and a raised exception by the [Raise] case of
    [result]. *)

From Stdlib Require Import Ascii String.
From stdpp Require Import gmap strings list fin_maps.

Open Scope string_scope.

(** A call either returns a value or raises an exception of type [E]. *)
Inductive result (E A : Type) : Type :=
| Ok (a : A)
| Raise (e : E).
Arguments Ok {E A} a.
Arguments Raise {E A} e.

#[export] Instance result_ret {E} : MRet (result E) := fun A a => Ok a.
#[export] Instance result_bind {E} : MBind (result E) := fun A B f r =>
  match r with Ok a => f a | Raise e => Raise e end.
#[export] Instance result_fmap {E} : FMap (result E) := fun A B f r =>
  match r with Ok a => Ok (f a) | Raise e => Raise e end.

(** ** unro.py *)
Module Unro.

(** The text of each [raise] of the module, and of the built-in lookups the
    module falls back on. *)
Inductive message : Type :=
| type_no_deletion   (* "type(%r) does not support attribute deletion." *)
| type_set_once      (* "type(%r) allows setting one attribute just once." *)
| item_set_once      (* "%r allows setting one attribute/item just once." *)
| attr_set_once      (* "%r allows setting one attribute just once." *)
| class_no_deletion  (* "class %r does not support attribute deletion." *)
| no_instance_set    (* "%r does not allow setting attributes through instance objects." *)
| no_attribute.      (* built-in: the object has no such attribute *)

Inductive exn : Type :=
| AttributeError (m : message)
| KeyError (key : string)   (* self.__dict__[key] on a missing key *)
| TypeError                 (* item access on a class without the item methods *)
| NameError.                (* a reference that names no object *)

(** The error taxonomy of the specification (section 7), read off the raise
    sites: the library's own refusals are policy violations, the built-in
    "no such attribute" and the dictionary's [KeyError] are key-not-found. *)
Inductive error_kind : Type := PolicyViolation | KeyNotFound | OtherError.

Definition kind_of (e : exn) : error_kind :=
  match e with
  | AttributeError no_attribute => KeyNotFound
  | AttributeError _ => PolicyViolation
  | KeyError _ => KeyNotFound
  | TypeError | NameError => OtherError
  end.

(** The classes of the module.  Every one of them ends its MRO with the
    built-in [object], which is left implicit: it is the base case of the
    method lookups below. *)
Inductive cls : Type :=
| Object | Base | Map
| ClassReadonlyMap | ClassReadonly | ClassUndeadMap | ClassUndead
| ClassUnro | ClassUnroMap
| ReadonlyMap | Readonly | UndeadMap | Undead | Unro | UnroMap
| ConstClass.

#[export] Instance cls_eq_dec : EqDecision cls.
Proof. solve_decision. Defined.

(** The metaclasses; [py_type] is the built-in [type]. *)
Inductive metacls : Type := py_type | UndeadMeta | ReadonlyMeta | UnroMeta.

#[export] Instance metacls_eq_dec : EqDecision metacls.
Proof. solve_decision. Defined.

(** The base named in each class statement ([None]: the built-in [object]). *)
Definition base (c : cls) : option cls :=
  match c with
  | Object => None
  | Base => Some Object
  | Map => Some Base
  | ClassReadonlyMap | ClassUndeadMap | ClassUnroMap => Some Map
  | ClassReadonly | ClassUndead | ClassUnro => Some Base
  | ReadonlyMap | UndeadMap | UnroMap => Some Map
  | Readonly | Undead | Unro => Some Base
  | ConstClass => Some ClassUnro
  end.

(** With single inheritance the MRO is the chain of bases. *)
Fixpoint mro_from (fuel : nat) (c : cls) : list cls :=
  match fuel with
  | O => []
  | S n => c :: match base c with Some b => mro_from n b | None => [] end
  end.

Definition mro (c : cls) : list cls := mro_from 5 c.

(** The [metaclass=] of each class statement; a class without one takes the
    metaclass of its base. *)
Definition metaclass (c : cls) : metacls :=
  match c with
  | Object | Base | Map => py_type
  | ClassReadonlyMap | ClassReadonly => ReadonlyMeta
  | ClassUndeadMap | ClassUndead => UndeadMeta
  | ClassUnro | ClassUnroMap => UnroMeta
  | ReadonlyMap | Readonly => ReadonlyMeta
  | UndeadMap | Undead => UndeadMeta
  | Unro | UnroMap => UnroMeta
  | ConstClass => UnroMeta
  end.

(** MRO of the metaclasses, the built-in [type] at the end left implicit.
    [class UnroMeta(UndeadMeta, ReadonlyMeta)] linearises to itself, then its
    two bases in the order written. *)
Definition meta_mro (m : metacls) : list metacls :=
  match m with
  | py_type => []
  | UndeadMeta => [UndeadMeta]
  | ReadonlyMeta => [ReadonlyMeta]
  | UnroMeta => [UnroMeta; UndeadMeta; ReadonlyMeta]
  end.

(** The shapes of the [__setattr__] and [__delattr__] bodies of the module. *)
Inductive setattr_body : Type :=
| set_once (m : message)   (* if name in self.__dict__: raise ... else: super().__setattr__(name, value) *)
| set_never (m : message). (* raise ... *)

Inductive delattr_body : Type :=
| del_never (m : message). (* raise ... *)

(** Which class defines which special method. *)
Definition inst_setattr_def (c : cls) : option setattr_body :=
  match c with
  | ReadonlyMap => Some (set_once item_set_once)
  | Readonly | Unro | UnroMap => Some (set_once attr_set_once)
  | ConstClass => Some (set_never no_instance_set)
  | _ => None
  end.

Definition inst_delattr_def (c : cls) : option delattr_body :=
  match c with
  | UndeadMap | Undead | Unro | UnroMap | ConstClass => Some (del_never class_no_deletion)
  | _ => None
  end.

Definition meta_setattr_def (m : metacls) : option setattr_body :=
  match m with
  | ReadonlyMeta => Some (set_once type_set_once)
  | _ => None
  end.

Definition meta_delattr_def (m : metacls) : option delattr_body :=
  match m with
  | UndeadMeta => Some (del_never type_no_deletion)
  | _ => None
  end.

(** The part of an MRO after class [c]: where [super(c, self)] starts its
    lookup. *)
Fixpoint mro_after {C : Type} `{EqDecision C} (c : C) (l : list C) : list C :=
  match l with
  | [] => []
  | x :: rest => if decide (x = c) then rest else mro_after c rest
  end.

Definition defines_items (c : cls) : bool := bool_decide (Map ∈ mro c).

(** The policy pair the documentation of each class announces, per
    namespace: the shared one follows the metaclass, the private one the
    class's own overrides.  [ConstClass] announces no pair for its instances
    ("Instance object can not set any attributes"). *)
Record policy : Type := { write_once : bool; no_delete : bool }.

Definition shared_policy (c : cls) : policy :=
  match metaclass c with
  | py_type => {| write_once := false; no_delete := false |}
  | UndeadMeta => {| write_once := false; no_delete := true |}
  | ReadonlyMeta => {| write_once := true; no_delete := false |}
  | UnroMeta => {| write_once := true; no_delete := true |}
  end.

Definition private_policy (c : cls) : option policy :=
  match c with
  | ReadonlyMap | Readonly => Some {| write_once := true; no_delete := false |}
  | UndeadMap | Undead => Some {| write_once := false; no_delete := true |}
  | Unro | UnroMap => Some {| write_once := true; no_delete := true |}
  | ConstClass => None
  | _ => Some {| write_once := false; no_delete := false |}
  end.

(** The classes that bind one policy to both namespaces. *)
Definition uniform (c : cls) : bool :=
  match c with
  | ReadonlyMap | Readonly | UndeadMap | Undead | Unro | UnroMap => true
  | _ => false
  end.

Section Values.

(** The values stored in attributes: any Python value that is not a
    descriptor.  Names are ordinary attribute names: the special methods of a
    class are given by the tables above and are not reassigned. *)
Context {V : Type}.

(** Attribute assignment resolved along an MRO.  The first class that defines
    [__setattr__] runs its body, whose [super().__setattr__] continues in the
    rest of the list; at the end stands the built-in [object.__setattr__]
    (for a metaclass MRO, [type.__setattr__]), which stores the value in the
    dictionary. *)
Fixpoint setattr_via {C : Type} (defs : C → option setattr_body) (l : list C)
    (d : gmap string V) (name : string) (value : V) : result exn (gmap string V) :=
  match l with
  | [] => Ok (<[name := value]> d)
  | c :: rest =>
      match defs c with
      | Some (set_once m) =>
          match d !! name with
          | Some _ => Raise (AttributeError m)
          | None => setattr_via defs rest d name value
          end
      | Some (set_never m) => Raise (AttributeError m)
      | None => setattr_via defs rest d name value
      end
  end.

(** Attribute deletion resolved along an MRO; the built-in at the end removes
    the name, or raises [AttributeError] when it is not there. *)
Fixpoint delattr_via {C : Type} (defs : C → option delattr_body) (l : list C)
    (d : gmap string V) (name : string) : result exn (gmap string V) :=
  match l with
  | [] =>
      match d !! name with
      | Some _ => Ok (delete name d)
      | None => Raise (AttributeError no_attribute)
      end
  | c :: rest =>
      match defs c with
      | Some (del_never m) => Raise (AttributeError m)
      | None => delattr_via defs rest d name
      end
  end.

(** [obj.name = value] and [del obj.name] on an instance of class [c] whose
    [__dict__] is [d]. *)
Definition inst_setattr (c : cls) (d : gmap string V) (name : string) (value : V)
    : result exn (gmap string V) :=
  setattr_via inst_setattr_def (mro c) d name value.

Definition inst_delattr (c : cls) (d : gmap string V) (name : string)
    : result exn (gmap string V) :=
  delattr_via inst_delattr_def (mro c) d name.

(** [cls.name = value] and [del cls.name] on the class [c] itself, whose own
    [__dict__] is [d]: resolved on the metaclass. *)
Definition type_setattr (c : cls) (d : gmap string V) (name : string) (value : V)
    : result exn (gmap string V) :=
  setattr_via meta_setattr_def (meta_mro (metaclass c)) d name value.

Definition type_delattr (c : cls) (d : gmap string V) (name : string)
    : result exn (gmap string V) :=
  delattr_via meta_delattr_def (meta_mro (metaclass c)) d name.

(** Map.__getitem__: [return self.__dict__[key]] *)
Definition Map_getitem (d : gmap string V) (key : string) : result exn V :=
  match d !! key with
  | Some v => Ok v
  | None => Raise (KeyError key)
  end.

(** Map.__setitem__: [super(Map, self).__setattr__(key, value)] *)
Definition Map_setitem (c : cls) (d : gmap string V) (key : string) (value : V)
    : result exn (gmap string V) :=
  setattr_via inst_setattr_def (mro_after Map (mro c)) d key value.

(** Map.__delitem__: [super(Map, self).__delattr__(key)] *)
Definition Map_delitem (c : cls) (d : gmap string V) (key : string)
    : result exn (gmap string V) :=
  delattr_via inst_delattr_def (mro_after Map (mro c)) d key.

(** [obj[key]], [obj[key] = value] and [del obj[key]] on an instance of
    [c]: the methods of [Map] when [Map] is in the MRO, a [TypeError]
    otherwise. *)
Definition getitem (c : cls) (d : gmap string V) (key : string) : result exn V :=
  if defines_items c then Map_getitem d key else Raise TypeError.

Definition setitem (c : cls) (d : gmap string V) (key : string) (value : V)
    : result exn (gmap string V) :=
  if defines_items c then Map_setitem c d key value else Raise TypeError.

Definition delitem (c : cls) (d : gmap string V) (key : string)
    : result exn (gmap string V) :=
  if defines_items c then Map_delitem c d key else Raise TypeError.

(** Base.__len__: [len(self.__dict__)] *)
Definition Base_len (d : gmap string V) : nat := size d.

(** The built-in [dict] constructor on the pairs it is given (the positional
    argument's, then the keyword arguments), in the order it receives them: a
    key seen again keeps its place and takes the new value.  Keys are strings,
    as attribute names must be. *)
Fixpoint dict_store (items : list (string * V)) (k : string) (v : V)
    : list (string * V) :=
  match items with
  | [] => [(k, v)]
  | (k', v') :: rest =>
      if decide (k' = k) then (k', v) :: rest else (k', v') :: dict_store rest k v
  end.

Definition py_dict (pairs : list (string * V)) : list (string * V) :=
  foldl (fun items kv => dict_store items kv.1 kv.2) [] pairs.


(** The dictionary after storing [pairs] one after the other. *)
Definition store_all (d : gmap string V) (pairs : list (string * V)) : gmap string V :=
  foldl (fun m kv => <[kv.1 := kv.2]> m) d pairs.

(** The loop of Map.__init__: [for k, v in ....items(): self[k] = v] *)
Fixpoint setitem_each (c : cls) (d : gmap string V) (items : list (string * V))
    : result exn (gmap string V) :=
  match items with
  | [] => Ok d
  | (k, v) :: rest => d' ← setitem c d k v; setitem_each c d' rest
  end.

(** Map.__init__ *)
Definition Map_init (c : cls) (d : gmap string V) (pairs : list (string * V))
    : result exn (gmap string V) :=
  match pairs with
  | [] => Ok d
  | _ => setitem_each c d (py_dict pairs)
  end.

(** *** Several objects at once

    The state of a program that uses the module: the own [__dict__] of each
    class, and the instances created so far, each with its class and its
    [__dict__]; an instance is named by its position.  What a class statement
    itself puts into the class's [__dict__] (its methods, [__doc__],
    [__module__]) are entries like any other: the facts below hold whatever
    the dictionaries contain. *)
Record world : Type := World {
  class_dict : cls → gmap string V;
  heap : list (cls * gmap string V)
}.

Definition empty_world : world := {| class_dict := fun _ => ∅; heap := [] |}.

(** What an operation is applied to: a class itself, or an instance. *)
Inductive target : Type :=
| OnType (c : cls)
| OnInstance (a : nat).

Definition set_class_dict (w : world) (c : cls) (d : gmap string V) : world :=
  {| class_dict := fun c' => if decide (c' = c) then d else class_dict w c';
     heap := heap w |}.

Definition set_inst_dict (w : world) (a : nat) (c : cls) (d : gmap string V) : world :=
  {| class_dict := class_dict w; heap := <[a := (c, d)]> (heap w) |}.

(** The namespace an operation on [t] works on. *)
Definition namespace (w : world) (t : target) : option (gmap string V) :=
  match t with
  | OnType c => Some (class_dict w c)
  | OnInstance a => snd <$> heap w !! a
  end.

(** [c()]: a new instance with an empty [__dict__] (Map.__init__ without
    arguments stores nothing). *)
Definition new_instance (w : world) (c : cls) : nat * world :=
  (length (heap w), {| class_dict := class_dict w; heap := heap w ++ [(c, ∅)] |}).

(** [t.name = value] *)
Definition setattr (w : world) (t : target) (name : string) (value : V) : result exn world :=
  match t with
  | OnType c =>
      d' ← type_setattr c (class_dict w c) name value; Ok (set_class_dict w c d')
  | OnInstance a =>
      match heap w !! a with
      | Some (c, d) => d' ← inst_setattr c d name value; Ok (set_inst_dict w a c d')
      | None => Raise NameError
      end
  end.

(** [del t.name] *)
Definition delattr (w : world) (t : target) (name : string) : result exn world :=
  match t with
  | OnType c =>
      d' ← type_delattr c (class_dict w c) name; Ok (set_class_dict w c d')
  | OnInstance a =>
      match heap w !! a with
      | Some (c, d) => d' ← inst_delattr c d name; Ok (set_inst_dict w a c d')
      | None => Raise NameError
      end
  end.

(** The first class of an MRO whose own [__dict__] has the name. *)
Fixpoint lookup_mro (cd : cls → gmap string V) (l : list cls) (name : string) : option V :=
  match l with
  | [] => None
  | c :: rest =>
      match cd c !! name with
      | Some v => Some v
      | None => lookup_mro cd rest name
      end
  end.

(** The built-in attribute read on an instance whose [__dict__] is [d]: the
    instance's own entry first, then what its classes give ([inherited]). *)
Definition getattr_with (inherited : option V) (d : gmap string V) (name : string) : result exn V :=
  match d !! name with
  | Some v => Ok v
  | None =>
      match inherited with
      | Some v => Ok v
      | None => Raise (AttributeError no_attribute)
      end
  end.

(** [t.name].  No class of the module defines [__getattribute__] or
    [__getattr__], so a read is the built-in lookup: on a class, its own
    [__dict__] and then those of the classes after it in its MRO; on an
    instance, its own [__dict__] and then the classes of its MRO. *)
Definition getattr (w : world) (t : target) (name : string) : result exn V :=
  match t with
  | OnType c =>
      getattr_with (lookup_mro (class_dict w) (mro_after c (mro c)) name)
        (class_dict w c) name
  | OnInstance a =>
      match heap w !! a with
      | Some (c, d) => getattr_with (lookup_mro (class_dict w) (mro c) name) d name
      | None => Raise NameError
      end
  end.

(** [obj[key]], [obj[key] = value] and [len(obj)] on the instance at [a]. *)
Definition getitem_at (w : world) (a : nat) (key : string) : result exn V :=
  match heap w !! a with
  | Some (c, d) => getitem c d key
  | None => Raise NameError
  end.

Definition setitem_at (w : world) (a : nat) (key : string) (value : V) : result exn world :=
  match heap w !! a with
  | Some (c, d) => d' ← setitem c d key value; Ok (set_inst_dict w a c d')
  | None => Raise NameError
  end.

Definition len_at (w : world) (a : nat) : result exn nat :=
  match heap w !! a with
  | Some (_, d) => Ok (Base_len d)
  | None => Raise NameError
  end.

(** *** Sequences of operations

    Names that start with two underscores belong to the interpreter:
    [__dict__] and [__class__] are handled by built-in descriptors (an
    assignment to [__dict__] replaces the whole namespace), and the special
    methods decide how the operations above resolve.  They are no entries of
    a namespace in the sense of this file. *)
Definition reserved (name : string) : bool := String.prefix "__" name.

(** One attribute operation on a name that is not reserved, and that
    succeeds, taking the namespace from [d] to [d']: an assignment or a
    deletion on an instance of [c], or the same on the class [c] itself.  A
    program that catches the exceptions and uses attributes of such names
    only moves along these steps. *)
Inductive inst_step (c : cls) (d d' : gmap string V) : Prop :=
| inst_step_set (name : string) (value : V) :
    reserved name = false → inst_setattr c d name value = Ok d' → inst_step c d d'
| inst_step_del (name : string) :
    reserved name = false → inst_delattr c d name = Ok d' → inst_step c d d'.

Inductive type_step (c : cls) (d d' : gmap string V) : Prop :=
| type_step_set (name : string) (value : V) :
    reserved name = false → type_setattr c d name value = Ok d' → type_step c d d'
| type_step_del (name : string) :
    reserved name = false → type_delattr c d name = Ok d' → type_step c d d'.

End Values.

Arguments world V : clear implicits.

End Unro.

(** ** deprecate.py *)
Module Deprecate.

Inductive exn : Type :=
| ValueError            (* a non-callable without the 'me' name *)
| NotImplementedError   (* "decorating a non callable is not supported yet." *)
| TypeError             (* [>=] between a version and a string; calling a non-callable *)
| InvalidVersion        (* raised by version.parse *)
| RaisedByWarnings.     (* raised inside the warnings module: the warning itself
                           under an "error" filter, or its refusal of an action *)

(** Modelled from the spec: the two warning classes of easyvar.warnings,
    whose file is not among the sources.  Only their names and the message an
    instance carries are used. *)
Inductive warning_class : Type := UnsupportedWarningClass | DeprecatedWarningClass.

Inductive warning : Type :=
| UnsupportedWarning (msg : string)
| DeprecatedWarning (msg : string).

Definition class_of (w : warning) : warning_class :=
  match w with
  | UnsupportedWarning _ => UnsupportedWarningClass
  | DeprecatedWarning _ => DeprecatedWarningClass
  end.

(** STATUS_OK = 0, STATUS_DEPRECATED = 1, STATUS_UNSUPPORTED = 2 *)
Inductive status_code : Type := STATUS_OK | STATUS_DEPRECATED | STATUS_UNSUPPORTED.

Definition status_value (s : status_code) : Z :=
  match s with
  | STATUS_OK => 0
  | STATUS_DEPRECATED => 1
  | STATUS_UNSUPPORTED => 2
  end.

(** The keyword arguments of [deprecate], handed on to [DepWrapper]. *)
Record kwargs : Type := {
  me : string;
  by_ : string;
  ver_cur : string;
  ver_dep : string;
  ver_end : string;
  msg_dep : string;
  msg_end : string;
  do_at_dep : string;
  do_at_end : string;
  stacklevel : Z
}.

Definition defaults : kwargs :=
  {| me := ""; by_ := ""; ver_cur := ""; ver_dep := ""; ver_end := "";
     msg_dep := ""; msg_end := ""; do_at_dep := ""; do_at_end := "";
     stacklevel := 2 |}.

(** [deprecate(ver_cur=..., ver_dep=..., ver_end=...)] and
    [deprecate(me=...)], the other arguments left at their defaults. *)
Definition with_versions (cur dep removed : string) : kwargs :=
  {| me := ""; by_ := ""; ver_cur := cur; ver_dep := dep; ver_end := removed;
     msg_dep := ""; msg_end := ""; do_at_dep := ""; do_at_end := "";
     stacklevel := 2 |}.

Definition named (name : string) : kwargs :=
  {| me := name; by_ := ""; ver_cur := ""; ver_dep := ""; ver_end := "";
     msg_dep := ""; msg_end := ""; do_at_dep := ""; do_at_end := "";
     stacklevel := 2 |}.

(** The same keyword arguments with other [msg_dep] and [msg_end]. *)
Definition with_messages (kw : kwargs) (dep_text end_text : string) : kwargs :=
  {| me := me kw; by_ := by_ kw; ver_cur := ver_cur kw; ver_dep := ver_dep kw;
     ver_end := ver_end kw; msg_dep := dep_text; msg_end := end_text;
     do_at_dep := do_at_dep kw; do_at_end := do_at_end kw;
     stacklevel := stacklevel kw |}.

(** Truth value of a string: it is not empty. *)
Definition nonempty (s : string) : bool := negb (String.eqb s "").

(** Python's [>=] on strings. *)
Definition str_ge (s t : string) : bool := String.leb t s.

Section Versions.

(** packaging.version, an external library: its version objects, its
    [parse] ([None]: it raises InvalidVersion) and the [>=] of two versions. *)
Context {Version : Type}.
Variable parse : string → option Version.
Variable ver_ge : Version → Version → bool.

(** Arguments and results of the deprecated callables. *)
Context {Arg Res : Type}.

(** The object handed to the decorator: something that can be called, or
    not; [repr] is its [repr()], [truthy] its truth value. *)
Inductive pyobj : Type :=
| Callable (repr : string) (truthy : bool) (body : Arg → Res)
| NonCallable (repr : string) (truthy : bool).

Definition callable (f : pyobj) : bool :=
  match f with Callable _ _ _ => true | NonCallable _ _ => false end.

Definition repr (f : pyobj) : string :=
  match f with Callable r _ _ => r | NonCallable r _ => r end.

Definition truth (f : pyobj) : bool :=
  match f with Callable _ t _ => t | NonCallable _ t => t end.

Definition call (f : pyobj) (a : Arg) : result exn Res :=
  match f with
  | Callable _ _ body => Ok (body a)
  | NonCallable _ _ => Raise TypeError
  end.

(** A version marker after the generator of [__init__]: parsed when it is a
    non-empty string, passed through as it is otherwise. *)
Inductive marker : Type :=
| Unparsed (s : string)
| Parsed (v : Version).

(** [version.parse(x) if x and isinstance(x, str) else x] *)
Definition parse_marker (x : string) : result exn marker :=
  if nonempty x then
    match parse x with
    | Some v => Ok (Parsed v)
    | None => Raise InvalidVersion
    end
  else Ok (Unparsed x).

Definition marker_truth (m : marker) : bool :=
  match m with
  | Unparsed s => nonempty s
  | Parsed _ => true
  end.

(** [a >= b]: two versions, two strings, or a TypeError. *)
Definition marker_ge (a b : marker) : result exn bool :=
  match a, b with
  | Parsed x, Parsed y => Ok (ver_ge x y)
  | Unparsed s, Unparsed t => Ok (str_ge s t)
  | _, _ => Raise TypeError
  end.

(** The attributes of a DepWrapper instance. *)
Record DepWrapper : Type := {
  func_callable : bool;
  self_me : string;
  func : pyobj;
  self_by : string;
  self_ver_cur : string;
  self_ver_dep : string;
  self_ver_end : string;
  self_msg_dep : string;
  self_msg_end : string;
  self_do_at_dep : string;
  self_do_at_end : string;
  self_stacklevel : Z;
  status : status_code
}.

(** The [elif] of [__init__]: [_ver_cur >= _ver_dep] *)
Definition deprecated_or_ok (_ver_cur _ver_dep : marker) : result exn status_code :=
  b ← marker_ge _ver_cur _ver_dep;
  Ok (if b : bool then STATUS_DEPRECATED else STATUS_OK).

(** The status computed at the end of [__init__]. *)
Definition compute_status (_ver_cur _ver_dep _ver_end : marker) : result exn status_code :=
  if marker_truth _ver_end then
    b ← marker_ge _ver_cur _ver_end;
    if b : bool then Ok STATUS_UNSUPPORTED else deprecated_or_ok _ver_cur _ver_dep
  else deprecated_or_ok _ver_cur _ver_dep.

(** DepWrapper.__init__ *)
Definition DepWrapper_init (f : pyobj) (kw : kwargs) : result exn DepWrapper :=
  if negb (callable f) && negb (nonempty (me kw)) then Raise ValueError
  else
    _ver_cur ← parse_marker (ver_cur kw);
    _ver_dep ← parse_marker (ver_dep kw);
    _ver_end ← parse_marker (ver_end kw);
    st ← compute_status _ver_cur _ver_dep _ver_end;
    Ok {| func_callable := callable f;
          self_me := if nonempty (me kw) then me kw else repr f;
          func := f;
          self_by := by_ kw;
          self_ver_cur := ver_cur kw;
          self_ver_dep := ver_dep kw;
          self_ver_end := ver_end kw;
          self_msg_dep := msg_dep kw;
          self_msg_end := msg_end kw;
          self_do_at_dep := do_at_dep kw;
          self_do_at_end := do_at_end kw;
          self_stacklevel := stacklevel kw;
          status := st |}.

(** [fmt % (s,)] when [s] is not empty, [s] itself otherwise. *)
Definition decorate_if (pre s post : string) : string :=
  if nonempty s then pre ++ s ++ post else s.

(** DepWrapper.get_deprecation_warning_config: the warning and the filter
    action, and the instance with the texts it has rewritten in place. *)
Definition get_deprecation_warning_config (self : DepWrapper)
    : DepWrapper * (warning * string) :=
  let by' := decorate_if " by `" (self_by self) "`" in
  let ver_dep' := decorate_if " from version `" (self_ver_dep self) "`" in
  let ver_cur' := decorate_if ". Current version `" (self_ver_cur self) "`" in
  let unsupported :=
    match status self with STATUS_UNSUPPORTED => true | _ => false end in
  let me' :=
    if unsupported then "`" ++ self_me self ++ "` was deprecated"
    else "`" ++ self_me self ++ "` is deprecated" in
  let ver_end' :=
    if unsupported
    then decorate_if " and planned to be removed in version `" (self_ver_end self) "`"
    else decorate_if " and will be removed in version `" (self_ver_end self) "`" in
  let msg := me' ++ by' ++ ver_dep' ++ ver_end' ++ ver_cur' in
  let self' :=
    {| func_callable := func_callable self;
       self_me := me';
       func := func self;
       self_by := by';
       self_ver_cur := ver_cur';
       self_ver_dep := ver_dep';
       self_ver_end := ver_end';
       self_msg_dep := self_msg_dep self;
       self_msg_end := self_msg_end self;
       self_do_at_dep := self_do_at_dep self;
       self_do_at_end := self_do_at_end self;
       self_stacklevel := self_stacklevel self;
       status := status self |} in
  if unsupported
  then (self', (UnsupportedWarning msg, self_do_at_end self))
  else (self', (DeprecatedWarning msg, self_do_at_dep self)).

(** What the decorator hands back: the function it was given, or the closure
    [wrapper] with the values it captured. *)
Inductive decorated : Type :=
| Original (f : pyobj)
| Wrapper (wrn : warning) (filter_wrn : string) (level : Z) (f : pyobj).

(** DepWrapper.get_deprecation_function *)
Definition get_deprecation_function (self : DepWrapper) : DepWrapper * decorated :=
  match status self with
  | STATUS_OK => (self, Original (func self))
  | _ =>
      let '(self', (wrn, filter_wrn)) := get_deprecation_warning_config self in
      (self', Wrapper wrn filter_wrn (self_stacklevel self') (func self'))
  end.

(** DepWrapper.get_deprecation_wrapper and DepWrapper.get_wrapper *)
Definition get_deprecation_wrapper (self : DepWrapper) : result exn (DepWrapper * decorated) :=
  if func_callable self then Ok (get_deprecation_function self)
  else Raise NotImplementedError.

Definition get_wrapper (self : DepWrapper) : result exn (DepWrapper * decorated) :=
  get_deprecation_wrapper self.

(** What a call does, in order: the calls into the warnings module, then the
    call of the deprecated function. *)
Inductive event : Type :=
| SimpleFilter (action : string) (category : warning_class)
| Warn (wrn : warning) (level : Z)
| Call (f : pyobj) (a : Arg).

(** The warnings module of the standard library, as the wrapper meets it.
    Its filters are state of the interpreter, set by whoever ran before, so
    nothing is fixed here beyond this: a call into it returns or raises.
    [warnings_raise calls] says which for the last call of [calls], the
    calls before it being those this invocation has already made: [true]
    when it raises ([warnings.warn] under an "error" filter raises the
    warning, [warnings.simplefilter] refuses an action it does not know).
    An instance stands for the module in the state one invocation finds it
    in. *)
Class Warnings : Type := warnings_raise : list event → bool.

Context {wm : Warnings}.

(** Calling the decorated object with argument [a]: the function itself, or
    the body of [wrapper], which stops at the first call that raises. *)
Definition invoke (d : decorated) (a : Arg) : list event * result exn Res :=
  match d with
  | Original f => ([Call f a], call f a)
  | Wrapper wrn filter_wrn level f =>
      let filters :=
        if nonempty filter_wrn then [SimpleFilter filter_wrn (class_of wrn)] else [] in
      if nonempty filter_wrn && warnings_raise filters
      then (filters, Raise RaisedByWarnings)
      else if warnings_raise (filters ++ [Warn wrn level])%list
      then ((filters ++ [Warn wrn level])%list, Raise RaisedByWarnings)
      else ((filters ++ [Warn wrn level; Call f a])%list, call f a)
  end.

(** The inner function [deprecator] of [deprecate]. *)
Definition deprecator (kw : kwargs) (f : pyobj) : result exn decorated :=
  wrapper ← DepWrapper_init f kw;
  snd <$> get_wrapper wrapper.

(** [deprecate(_func, **kw)]: the decorated object at once when [_func] is
    given and true, the decorator [deprecator] otherwise. *)
Inductive deprecate_result : Type :=
| Applied (r : result exn decorated)
| Decorator (d : pyobj → result exn decorated).

Definition deprecate (_func : option pyobj) (kw : kwargs) : deprecate_result :=
  match _func with
  | Some f => if truth f then Applied (deprecator kw f) else Decorator (deprecator kw)
  | None => Decorator (deprecator kw)
  end.

End Versions.

Arguments pyobj : clear implicits.
Arguments marker : clear implicits.
Arguments DepWrapper : clear implicits.
Arguments decorated : clear implicits.
Arguments event : clear implicits.
Arguments deprecate_result : clear implicits.
Arguments Warnings : clear implicits.

(** A warnings module in which nothing raises (every filter set to
    "ignore", say). *)
Definition silent_warnings {Arg Res : Type} : Warnings Arg Res := fun _ => false.

(** A stand-in for packaging.version on plain release strings [N(.N)*]: the
    release numbers, compared as tuples once trailing zeros are dropped, which
    is how packaging orders two versions that have a release segment only.
    Strings of any other shape are not parsed here. *)
Definition digit (c : ascii) : option nat :=
  let n := nat_of_ascii c in
  if (48 <=? n)%nat && (n <=? 57)%nat then Some (n - 48)%nat else None.

Fixpoint parse_segments (s : string) (cur : option nat) (acc : list nat)
    : option (list nat) :=
  match s with
  | EmptyString =>
      match cur with
      | Some n => Some (rev (n :: acc))
      | None => None
      end
  | String c rest =>
      if Ascii.eqb c "."%char then
        match cur with
        | Some n => parse_segments rest None (n :: acc)
        | None => None
        end
      else
        match digit c with
        | Some k => parse_segments rest (Some (10 * default 0%nat cur + k)%nat) acc
        | None => None
        end
  end.

Fixpoint drop_zeros (l : list nat) : list nat :=
  match l with
  | O :: rest => drop_zeros rest
  | _ => l
  end.

Definition release_key (l : list nat) : list nat := rev (drop_zeros (rev l)).

Definition parse_release (s : string) : option (list nat) :=
  release_key <$> parse_segments s None [].

(** Python's [>=] on tuples of numbers. *)
Fixpoint tuple_ge (a b : list nat) : bool :=
  match a, b with
  | _, [] => true
  | [], _ :: _ => false
  | x :: a', y :: b' =>
      if (x <? y)%nat then false
      else if (y <? x)%nat then true
      else tuple_ge a' b'
  end.

End Deprecate.

(** ** Facts about unro.py *)
Module UnroFacts.
Import Unro.

Section Facts.
Context {V : Type}.
Implicit Types (d : gmap string V) (c : cls) (name key : string).

(** *** How each operation resolves *)

(** The classes documented as imposing the restriction "upon both class
    attributes and instance attributes equally" announce the same pair for
    both namespaces. *)
Lemma uniform_same_policy c : uniform c = true → private_policy c = Some (shared_policy c).
Proof. destruct c; intros H; try discriminate H; reflexivity. Qed.

Lemma super_Map c : defines_items c = true → mro_after Map (mro c) = [Base; Object].
Proof. destruct c; intros H; try discriminate H; reflexivity. Qed.

(** [super(Map, self)] reaches the built-in methods whatever the class of
    [self] is: neither [Base] nor [Object] overrides them. *)
Lemma setitem_stores c d key (v : V) :
  defines_items c = true → setitem c d key v = Ok (<[key := v]> d).
Proof.
  intros H. unfold setitem, Map_setitem. rewrite H, (super_Map c H). reflexivity.
Qed.

Lemma delitem_removes c d key :
  defines_items c = true →
  delitem c d key =
    match d !! key with
    | Some _ => Ok (delete key d)
    | None => Raise (AttributeError no_attribute)
    end.
Proof.
  intros H. unfold delitem, Map_delitem. rewrite H, (super_Map c H). reflexivity.
Qed.

Lemma getitem_reads c d key :
  defines_items c = true →
  getitem c d key = match d !! key with Some v => Ok v | None => Raise (KeyError key) end.
Proof. intros H. unfold getitem, Map_getitem. rewrite H. reflexivity. Qed.

Lemma inst_setattr_cases c d name (v : V) :
  inst_setattr c d name v =
    match private_policy c with
    | None => Raise (AttributeError no_instance_set)
    | Some p =>
        if write_once p then
          match d !! name with
          | Some _ =>
              Raise (AttributeError (if decide (c = ReadonlyMap) then item_set_once else attr_set_once))
          | None => Ok (<[name := v]> d)
          end
        else Ok (<[name := v]> d)
    end.
Proof. destruct c; cbn; destruct (d !! name); reflexivity. Qed.

Lemma inst_delattr_cases c d name :
  inst_delattr c d name =
    match private_policy c with
    | None => Raise (AttributeError class_no_deletion)
    | Some p =>
        if no_delete p then Raise (AttributeError class_no_deletion)
        else
          match d !! name with
          | Some _ => Ok (delete name d)
          | None => Raise (AttributeError no_attribute)
          end
    end.
Proof. destruct c; cbn; destruct (d !! name); reflexivity. Qed.

Lemma type_setattr_cases c d name (v : V) :
  type_setattr c d name v =
    if write_once (shared_policy c) then
      match d !! name with
      | Some _ => Raise (AttributeError type_set_once)
      | None => Ok (<[name := v]> d)
      end
    else Ok (<[name := v]> d).
Proof. destruct c; cbn; destruct (d !! name); reflexivity. Qed.

Lemma type_delattr_cases c d name :
  type_delattr c d name =
    if no_delete (shared_policy c) then Raise (AttributeError type_no_deletion)
    else
      match d !! name with
      | Some _ => Ok (delete name d)
      | None => Raise (AttributeError no_attribute)
      end.
Proof. destruct c; cbn; destruct (d !! name); reflexivity. Qed.

Lemma getattr_with_own inherited d name (v : V) :
  d !! name = Some v → getattr_with inherited d name = Ok v.
Proof. intros H. unfold getattr_with. rewrite H. reflexivity. Qed.

Lemma inst_setattr_Ok c d name (v : V) d' :
  inst_setattr c d name v = Ok d' → d' = <[name := v]> d.
Proof.
  rewrite inst_setattr_cases.
  destruct (private_policy c) as [p|]; [|discriminate].
  destruct (write_once p), (d !! name); congruence.
Qed.

Lemma type_setattr_Ok c d name (v : V) d' :
  type_setattr c d name v = Ok d' → d' = <[name := v]> d.
Proof.
  rewrite type_setattr_cases.
  destruct (write_once (shared_policy c)), (d !! name); congruence.
Qed.

Lemma mro_head c : mro c = c :: mro_after c (mro c).
Proof. destruct c; reflexivity. Qed.

(** Runs a sequence of item operations on a mapping class. *)
Ltac run_items :=
  repeat first
    [ rewrite setitem_stores by reflexivity
    | rewrite delitem_removes by reflexivity
    | rewrite getitem_reads by reflexivity
    | rewrite lookup_insert_eq
    | rewrite lookup_delete_eq
    | progress cbn [mbind result_bind] ].

(** *** Item access on a write-once or no-delete mapping *)

(** C1: on the write-once mappings [ReadonlyMap] and [UnroMap] a second item
    assignment to the same key goes through and replaces the value, whatever
    the instance held before; only the attribute assignment is refused. *)
Theorem item_assignment_ignores_write_once d key (v1 v2 : V) :
  private_policy ReadonlyMap = Some {| write_once := true; no_delete := false |}
  ∧ (d1 ← setitem ReadonlyMap d key v1;
     d2 ← setitem ReadonlyMap d1 key v2;
     getitem ReadonlyMap d2 key) = Ok v2
  ∧ (d1 ← setitem ReadonlyMap d key v1; inst_setattr ReadonlyMap d1 key v2)
    = Raise (AttributeError item_set_once)
  ∧ private_policy UnroMap = Some {| write_once := true; no_delete := true |}
  ∧ (d1 ← setitem UnroMap d key v1;
     d2 ← setitem UnroMap d1 key v2;
     getitem UnroMap d2 key) = Ok v2
  ∧ (d1 ← setitem UnroMap d key v1; inst_setattr UnroMap d1 key v2)
    = Raise (AttributeError attr_set_once).
Proof.
  run_items. rewrite !inst_setattr_cases. cbn [private_policy write_once].
  rewrite !lookup_insert_eq. repeat split; reflexivity.
Qed.

(** C2: on the no-delete mappings [UndeadMap] and [UnroMap] an item deletion
    goes through and the key is gone afterwards; only the attribute deletion
    is refused. *)
Theorem item_deletion_ignores_no_delete d key (v : V) :
  private_policy UndeadMap = Some {| write_once := false; no_delete := true |}
  ∧ (d1 ← setitem UndeadMap d key v;
     d2 ← delitem UndeadMap d1 key;
     getitem UndeadMap d2 key) = Raise (KeyError key)
  ∧ (d1 ← setitem UndeadMap d key v; inst_delattr UndeadMap d1 key)
    = Raise (AttributeError class_no_deletion)
  ∧ private_policy UnroMap = Some {| write_once := true; no_delete := true |}
  ∧ (d1 ← setitem UnroMap d key v;
     d2 ← delitem UnroMap d1 key;
     getitem UnroMap d2 key) = Raise (KeyError key)
  ∧ (d1 ← setitem UnroMap d key v; inst_delattr UnroMap d1 key)
    = Raise (AttributeError class_no_deletion).
Proof.
  run_items. rewrite !inst_delattr_cases. cbn [private_policy no_delete].
  repeat split; reflexivity.
Qed.

(** *** Deleting a name that is not set *)

(** C4, as the code has it: deleting a name that is not set raises the
    built-in "no such attribute" error (key-not-found) in every namespace
    whose policy allows deletion, by attribute and by item alike; in a
    namespace that is no-delete, and on an instance of [ConstClass], the
    attribute deletion is refused with the policy error whether or not the
    name is set: the refusal comes before the name is looked at. *)
Theorem delete_of_unset_name c d name :
  (d !! name = None →
     (∀ p, private_policy c = Some p → no_delete p = false →
        inst_delattr c d name = Raise (AttributeError no_attribute)
        ∧ (defines_items c = true →
           delitem c d name = Raise (AttributeError no_attribute)))
     ∧ (no_delete (shared_policy c) = false →
        type_delattr c d name = Raise (AttributeError no_attribute)))
  ∧ (∀ p, private_policy c = Some p → no_delete p = true →
     inst_delattr c d name = Raise (AttributeError class_no_deletion))
  ∧ (private_policy c = None →
     inst_delattr c d name = Raise (AttributeError class_no_deletion))
  ∧ (no_delete (shared_policy c) = true →
     type_delattr c d name = Raise (AttributeError type_no_deletion))
  ∧ kind_of (AttributeError no_attribute) = KeyNotFound
  ∧ kind_of (AttributeError class_no_deletion) = PolicyViolation
  ∧ kind_of (AttributeError type_no_deletion) = PolicyViolation.
Proof.
  rewrite inst_delattr_cases, type_delattr_cases.
  split; [|split; [|split; [|split; [|repeat split]]]].
  - intros Hd. rewrite Hd. split.
    + intros p Hp Hn. rewrite Hp, Hn. split; [reflexivity|].
      intros Hm. rewrite delitem_removes, Hd by assumption. reflexivity.
    + intros Hn. rewrite Hn. reflexivity.
  - intros p Hp Hn. rewrite Hp, Hn. reflexivity.
  - intros Hp. rewrite Hp. reflexivity.
  - intros Hn. rewrite Hn. reflexivity.
Qed.

(** *** Write-once without no-delete *)


(** *** ConstClass *)

(** C7: through an instance of [ConstClass] every assignment and every
    deletion is refused, whatever the instance holds and whether or not the
    name is set; on the class itself a name that is not set can be assigned,
    after which a second assignment and a deletion are both refused and the
    first value stays. *)
Theorem ConstClass_policy (di dc : gmap string V) name (v1 v2 : V) (inherited : option V) :
  dc !! name = None →
  inst_setattr ConstClass di name v1 = Raise (AttributeError no_instance_set)
  ∧ inst_delattr ConstClass di name = Raise (AttributeError class_no_deletion)
  ∧ kind_of (AttributeError no_instance_set) = PolicyViolation
  ∧ kind_of (AttributeError class_no_deletion) = PolicyViolation
  ∧ ∃ d1, type_setattr ConstClass dc name v1 = Ok d1
      ∧ getattr_with inherited d1 name = Ok v1
      ∧ type_setattr ConstClass d1 name v2 = Raise (AttributeError type_set_once)
      ∧ type_delattr ConstClass d1 name = Raise (AttributeError type_no_deletion)
      ∧ kind_of (AttributeError type_set_once) = PolicyViolation
      ∧ kind_of (AttributeError type_no_deletion) = PolicyViolation.
Proof.
  intros Hd. repeat split.
  exists (<[name := v1]> dc).
  rewrite !type_setattr_cases, type_delattr_cases.
  cbn [shared_policy metaclass write_once no_delete].
  rewrite Hd, lookup_insert_eq.
  repeat split. apply getattr_with_own, lookup_insert_eq.
Qed.

(** *** Bulk construction *)

Lemma store_all_snoc d (pairs : list (string * V)) k v :
  store_all d (pairs ++ [(k, v)]) = <[k := v]> (store_all d pairs).
Proof. unfold store_all. rewrite foldl_app. reflexivity. Qed.


Lemma store_all_cons d (items : list (string * V)) k v :
  store_all d ((k, v) :: items) = store_all (<[k := v]> d) items.
Proof. reflexivity. Qed.

Lemma store_all_insert_out d (items : list (string * V)) k v :
  k ∉ items.*1 → store_all (<[k := v]> d) items = <[k := v]> (store_all d items).
Proof.
  revert d. induction items as [|[k' v'] items IH]; intros d Hk; [reflexivity|].
  cbn in Hk. apply not_elem_of_cons in Hk as [Hne Hk].
  change (store_all (<[k' := v']> (<[k := v]> d)) items
          = <[k := v]> (store_all (<[k' := v']> d) items)).
  rewrite <- IH by assumption. f_equal. apply insert_insert_ne. congruence.
Qed.

Lemma dict_store_keys (items : list (string * V)) k v :
  (dict_store items k v).*1 = if decide (k ∈ items.*1) then items.*1 else (items.*1 ++ [k])%list.
Proof.
  induction items as [|[k' v'] items IH]; cbn.
  - rewrite decide_False by apply not_elem_of_nil. reflexivity.
  - destruct (decide (k' = k)) as [-> |Hne]; cbn.
    + rewrite decide_True by (apply elem_of_cons; left; reflexivity). reflexivity.
    + rewrite IH. destruct (decide (k ∈ items.*1)) as [Hin|Hout].
      * rewrite decide_True by (apply elem_of_cons; right; assumption). reflexivity.
      * rewrite decide_False; [reflexivity|].
        rewrite elem_of_cons. intros [?|?]; congruence.
Qed.

Lemma dict_store_NoDup (items : list (string * V)) k v :
  NoDup items.*1 → NoDup (dict_store items k v).*1.
Proof.
  intros Hnd. rewrite dict_store_keys. destruct (decide (k ∈ items.*1)); [assumption|].
  apply NoDup_app. split; [assumption|]. split.
  - intros x Hx Hk. apply list_elem_of_singleton in Hk. congruence.
  - apply NoDup_singleton.
Qed.

Lemma store_all_dict_store d (items : list (string * V)) k v :
  NoDup items.*1 → store_all d (dict_store items k v) = <[k := v]> (store_all d items).
Proof.
  revert d. induction items as [|[k' v'] items IH]; intros d Hnd; [reflexivity|].
  cbn in Hnd. apply NoDup_cons in Hnd as [Hout Hnd].
  cbn [dict_store]. destruct (decide (k' = k)) as [-> |Hne].
  - change (store_all (<[k := v]> d) items = <[k := v]> (store_all (<[k := v']> d) items)).
    rewrite !store_all_insert_out by assumption. rewrite insert_insert_eq. reflexivity.
  - change (store_all (<[k' := v']> d) (dict_store items k v)
            = <[k := v]> (store_all (<[k' := v']> d) items)).
    apply IH. assumption.
Qed.

Lemma py_dict_snoc (pairs : list (string * V)) k v :
  py_dict (pairs ++ [(k, v)]) = dict_store (py_dict pairs) k v.
Proof. unfold py_dict. rewrite foldl_app. reflexivity. Qed.

(** The dictionary built first has every key once, the keys of the input,
    and the last value given for each. *)
Lemma py_dict_spec (pairs : list (string * V)) :
  NoDup (py_dict pairs).*1
  ∧ (∀ k, k ∈ (py_dict pairs).*1 ↔ k ∈ pairs.*1)
  ∧ ∀ d, store_all d (py_dict pairs) = store_all d pairs.
Proof.
  induction pairs as [|[k v] pairs (Hnd & Hkeys & Hst)] using rev_ind.
  - split; [apply NoDup_nil_2|]. split; [reflexivity|]. reflexivity.
  - rewrite py_dict_snoc. split; [apply dict_store_NoDup; assumption|]. split.
    + intros x. rewrite dict_store_keys, fmap_app, elem_of_app. cbn.
      rewrite list_elem_of_singleton, <- Hkeys.
      destruct (decide (k ∈ (py_dict pairs).*1)) as [Hin|Hout].
      * split; [tauto|]. intros [?| ->]; assumption.
      * rewrite elem_of_app, list_elem_of_singleton. reflexivity.
    + intros d. rewrite store_all_dict_store, store_all_snoc, Hst by assumption.
      reflexivity.
Qed.

Lemma setitem_each_stores c d (items : list (string * V)) :
  defines_items c = true → setitem_each c d items = Ok (store_all d items).
Proof.
  intros Hm. revert d. induction items as [|[k v] items IH]; intros d; [reflexivity|].
  cbn [setitem_each]. rewrite setitem_stores by assumption.
  cbn [mbind result_bind]. apply IH.
Qed.

Lemma store_all_NoDup_lookup d (items : list (string * V)) k v :
  NoDup items.*1 →
  store_all d items !! k = Some v ↔ (k, v) ∈ items ∨ ((k ∉ items.*1) ∧ d !! k = Some v).
Proof.
  revert d. induction items as [|[k' v'] items IH]; intros d Hnd.
  - cbn. rewrite elem_of_nil. split; [intros H; right; split; [apply not_elem_of_nil|exact H]|].
    intros [[]|[_ H]]. exact H.
  - cbn in Hnd. apply NoDup_cons in Hnd as [Hout Hnd].
    rewrite store_all_cons, (IH _ Hnd). cbn [fmap list_fmap fst].
    rewrite elem_of_cons, not_elem_of_cons.
    destruct (decide (k = k')) as [-> |Hne].
    + rewrite lookup_insert_eq. split.
      * intros [Hin|[_ [= ->]]]; [|left; left; reflexivity].
        exfalso. apply Hout. apply (list_elem_of_fmap_2 fst) in Hin. exact Hin.
      * intros [[[= ->]|Hin]|[[Hne _] _]]; [right; split; [assumption|reflexivity]
                                           |left; assumption|congruence].
    + rewrite lookup_insert_ne by congruence. split.
      * intros [Hin|[Hk Hd]]; [left; right; assumption|right; repeat split; assumption].
      * intros [[[= -> _]|Hin]|[[_ Hk] Hd]]; [congruence|left; assumption
                                             |right; split; assumption].
Qed.






(** *** The shared namespace and the private ones *)

Lemma setattr_type_inv (w w' : world V) c name v :
  setattr w (OnType c) name v = Ok w' →
  w' = set_class_dict w c (<[name := v]> (class_dict w c)).
Proof.
  cbn [setattr]. destruct (type_setattr c (class_dict w c) name v) as [d'|e] eqn:E;
    cbn [mbind result_bind]; [|discriminate].
  apply type_setattr_Ok in E as ->. congruence.
Qed.

Lemma setattr_inst_inv (w w' : world V) a name v :
  setattr w (OnInstance a) name v = Ok w' →
  ∃ c d, heap w !! a = Some (c, d) ∧ w' = set_inst_dict w a c (<[name := v]> d).
Proof.
  cbn [setattr]. destruct (heap w !! a) as [[c d]|] eqn:Ha; [|discriminate].
  destruct (inst_setattr c d name v) as [d'|e] eqn:E;
    cbn [mbind result_bind]; [|discriminate].
  apply inst_setattr_Ok in E as ->. intros [= <-]. eauto.
Qed.

Lemma new_instance_lookup (w : world V) c :
  heap (new_instance w c).2 !! (new_instance w c).1 = Some (c, ∅).
Proof. cbn. apply list_lookup_middle. reflexivity. Qed.

Lemma setitem_at_inv (w w' : world V) a key v :
  setitem_at w a key v = Ok w' →
  ∃ c d, heap w !! a = Some (c, d) ∧ w' = set_inst_dict w a c (<[key := v]> d).
Proof.
  unfold setitem_at. destruct (heap w !! a) as [[c d]|] eqn:Ha; [|discriminate].
  destruct (defines_items c) eqn:Hm.
  - rewrite (setitem_stores c d key v Hm).
    cbn [mbind result_bind]. intros [= <-]. eauto.
  - unfold setitem. rewrite Hm. discriminate.
Qed.

(** Replacing the [__dict__] of one instance changes no class and no other
    instance, nor any read on them. *)
Lemma set_inst_dict_isolated (w : world V) a c d' :
  class_dict (set_inst_dict w a c d') = class_dict w
  ∧ (∀ b, b ≠ a → heap (set_inst_dict w a c d') !! b = heap w !! b)
  ∧ (∀ c' n, getattr (set_inst_dict w a c d') (OnType c') n = getattr w (OnType c') n)
  ∧ ∀ b n, b ≠ a →
      getattr (set_inst_dict w a c d') (OnInstance b) n = getattr w (OnInstance b) n
      ∧ getitem_at (set_inst_dict w a c d') b n = getitem_at w b n
      ∧ len_at (set_inst_dict w a c d') b = len_at w b.
Proof.
  assert (Hother : ∀ b, b ≠ a → heap (set_inst_dict w a c d') !! b = heap w !! b).
  { intros b Hne. cbn. apply list_lookup_insert_ne. congruence. }
  split; [reflexivity|]. split; [assumption|]. split; [reflexivity|].
  intros b n Hne. unfold getattr, getitem_at, len_at.
  rewrite (Hother b Hne). repeat split; reflexivity.
Qed.

(** C3, as the code has it: an assignment on a class changes its own
    [__dict__] and nothing else, so a new instance starts empty and the item
    read of the name on it raises KeyError; an assignment on an instance, by
    attribute or by item, changes that instance's [__dict__] and nothing else,
    so no read on a class or on another instance is affected.  The attribute
    read on an instance, however, falls back on the class and does give the
    value assigned there. *)
Theorem setattr_touches_one_namespace (w : world V) c name (value : V) :
  (∀ w', setattr w (OnType c) name value = Ok w' →
     heap w' = heap w
     ∧ (∀ c', c' ≠ c → class_dict w' c' = class_dict w c')
     ∧ ∀ a w'', new_instance w' c = (a, w'') →
         namespace w'' (OnInstance a) = Some ∅
         ∧ len_at w'' a = Ok 0
         ∧ (defines_items c = true → getitem_at w'' a name = Raise (KeyError name))
         ∧ getattr w'' (OnInstance a) name = Ok value)
  ∧ (∀ a w',
       setattr w (OnInstance a) name value = Ok w'
       ∨ setitem_at w a name value = Ok w' →
     class_dict w' = class_dict w
     ∧ (∀ b, b ≠ a → heap w' !! b = heap w !! b)
     ∧ (∀ c' n, getattr w' (OnType c') n = getattr w (OnType c') n)
     ∧ ∀ b n, b ≠ a →
         getattr w' (OnInstance b) n = getattr w (OnInstance b) n
         ∧ getitem_at w' b n = getitem_at w b n
         ∧ len_at w' b = len_at w b).
Proof.
  split.
  - intros w' Hset. apply setattr_type_inv in Hset as ->.
    split; [reflexivity|]. split.
    { intros c' Hne. cbn. rewrite decide_False by assumption. reflexivity. }
    intros a w'' Hnew.
    pose proof (new_instance_lookup (set_class_dict w c (<[name := value]> (class_dict w c))) c)
      as Hlook.
    rewrite Hnew in Hlook. cbn [fst snd] in Hlook.
    unfold namespace, len_at, getitem_at, getattr. rewrite Hlook.
    split; [reflexivity|]. split; [reflexivity|]. split.
    + intros Hm. rewrite getitem_reads by assumption. rewrite lookup_empty. reflexivity.
    + injection Hnew as <- <-. unfold getattr_with. rewrite lookup_empty.
      rewrite mro_head. cbn [lookup_mro class_dict set_class_dict].
      rewrite decide_True by reflexivity. rewrite lookup_insert_eq. reflexivity.
  - intros a w' [Hset|Hset].
    + apply setattr_inst_inv in Hset as (ca & da & _ & ->).
      apply set_inst_dict_isolated.
    + apply setitem_at_inv in Hset as (ca & da & _ & ->).
      apply set_inst_dict_isolated.
Qed.

(** X1: a first assignment of a name that is not set succeeds in every namespace
    but the instances of [ConstClass], and the name then reads as the value
    assigned. *)
Theorem first_assignment_succeeds c d name (v : V) (inherited : option V) :
  d !! name = None →
  (c ≠ ConstClass →
     (d1 ← inst_setattr c d name v; getattr_with inherited d1 name) = Ok v)
  ∧ (d1 ← type_setattr c d name v; getattr_with inherited d1 name) = Ok v.
Proof.
  intros Hd. split.
  - intros Hc. rewrite inst_setattr_cases, Hd.
    destruct (private_policy c) as [p|] eqn:Hp; [|destruct c; try discriminate; congruence].
    destruct (write_once p); cbn [mbind result_bind];
      apply getattr_with_own, lookup_insert_eq.
  - rewrite type_setattr_cases, Hd.
    destruct (write_once (shared_policy c)); cbn [mbind result_bind];
      apply getattr_with_own, lookup_insert_eq.
Qed.

(** X2: in a write-once namespace the attribute assignment of a name that is set
    is refused with the policy error, and the name still reads as before. *)
Theorem write_once_refuses_second_assignment c d name (v1 v2 : V) (inherited : option V) :
  d !! name = Some v1 →
  (∀ p, private_policy c = Some p → write_once p = true →
     ∃ m, inst_setattr c d name v2 = Raise (AttributeError m)
          ∧ kind_of (AttributeError m) = PolicyViolation)
  ∧ (write_once (shared_policy c) = true →
     type_setattr c d name v2 = Raise (AttributeError type_set_once))
  ∧ kind_of (AttributeError type_set_once) = PolicyViolation
  ∧ getattr_with inherited d name = Ok v1.
Proof.
  intros Hd. split; [|split; [|split; [reflexivity|]]].
  - intros p Hp Hw. rewrite inst_setattr_cases, Hp, Hw, Hd.
    eexists. split; [reflexivity|]. destruct (decide (c = ReadonlyMap)); reflexivity.
  - intros Hw. rewrite type_setattr_cases, Hw, Hd. reflexivity.
  - apply getattr_with_own. assumption.
Qed.

(** X3: in a no-delete namespace the attribute deletion is refused with the
    policy error, whatever the namespace holds. *)
Theorem no_delete_refuses_deletion c d name :
  (∀ p, private_policy c = Some p → no_delete p = true →
     inst_delattr c d name = Raise (AttributeError class_no_deletion))
  ∧ (no_delete (shared_policy c) = true →
     type_delattr c d name = Raise (AttributeError type_no_deletion))
  ∧ kind_of (AttributeError class_no_deletion) = PolicyViolation
  ∧ kind_of (AttributeError type_no_deletion) = PolicyViolation.
Proof.
  split; [|split; [|split; reflexivity]].
  - intros p Hp Hn. rewrite inst_delattr_cases, Hp, Hn. reflexivity.
  - intros Hn. rewrite type_delattr_cases, Hn. reflexivity.
Qed.

End Facts.

(** *** The theorems at concrete inputs *)

(** C3: [Readonly.a = 1; r = Readonly(); r.a] gives 1. *)
Lemma attribute_read_sees_class_value :
  (w1 ← setattr (empty_world : world nat) (OnType Readonly) "a" 1;
   getattr (new_instance w1 Readonly).2 (OnInstance (new_instance w1 Readonly).1) "a")
  = Ok 1.
Proof. vm_compute. reflexivity. Qed.

Lemma setattr_touches_one_namespace_witness :
  ∃ w1 : world nat,
    setattr empty_world (OnType ReadonlyMap) "a" 1 = Ok w1
    ∧ getitem_at (new_instance w1 ReadonlyMap).2 (new_instance w1 ReadonlyMap).1 "a"
      = Raise (KeyError "a").
Proof.
  pose (w1 := set_class_dict (empty_world : world nat) ReadonlyMap (<["a" := 1]> ∅)).
  assert (Hset : setattr (empty_world : world nat) (OnType ReadonlyMap) "a" 1 = Ok w1)
    by reflexivity.
  exists w1. split; [exact Hset|].
  destruct (setattr_touches_one_namespace empty_world ReadonlyMap "a" 1) as [H _].
  destruct (H w1 Hset) as (_ & _ & Hnew).
  destruct (Hnew _ _ eq_refl) as (_ & _ & Hitem & _).
  apply Hitem. reflexivity.
Defined.

(** C4: [del Undead().a] and [del ClassUndead.a] are refused by the policy
    although [a] was never set. *)
Lemma unset_delete_refused_by_policy :
  inst_delattr Undead (∅ : gmap string nat) "a" = Raise (AttributeError class_no_deletion)
  ∧ type_delattr ClassUndead (∅ : gmap string nat) "a" = Raise (AttributeError type_no_deletion)
  ∧ kind_of (AttributeError class_no_deletion) = PolicyViolation
  ∧ kind_of (AttributeError type_no_deletion) = PolicyViolation.
Proof. repeat split; reflexivity. Qed.

Lemma delete_of_unset_name_witness :
  inst_delattr Readonly (∅ : gmap string nat) "a" = Raise (AttributeError no_attribute)
  ∧ inst_delattr Undead (∅ : gmap string nat) "a" = Raise (AttributeError class_no_deletion)
  ∧ inst_delattr Undead (<["a" := 1]> (∅ : gmap string nat)) "a"
    = Raise (AttributeError class_no_deletion).
Proof.
  split; [|split].
  - destruct (delete_of_unset_name Readonly (∅ : gmap string nat) "a") as (H & _).
    destruct (H (lookup_empty _)) as (H' & _).
    apply (H' _ eq_refl eq_refl).
  - destruct (delete_of_unset_name Undead (∅ : gmap string nat) "a") as (_ & H & _).
    apply (H _ eq_refl eq_refl).
  - destruct (delete_of_unset_name Undead (<["a" := 1]> (∅ : gmap string nat)) "a")
      as (_ & H & _).
    apply (H _ eq_refl eq_refl).
Defined.




Lemma ConstClass_policy_witness :
  inst_setattr ConstClass (∅ : gmap string nat) "a" 1 = Raise (AttributeError no_instance_set)
  ∧ ∃ d1, type_setattr ConstClass (∅ : gmap string nat) "a" 1 = Ok d1
      ∧ type_setattr ConstClass d1 "a" 2 = Raise (AttributeError type_set_once)
      ∧ type_delattr ConstClass d1 "a" = Raise (AttributeError type_no_deletion).
Proof.
  destruct (ConstClass_policy (∅ : gmap string nat) (∅ : gmap string nat) "a" 1 2 None
              (lookup_empty _)) as (Hs & _ & _ & _ & d1 & H1 & _ & H2 & H3 & _).
  split; [exact Hs|]. exists d1. split; [exact H1|]. split; [exact H2|exact H3].
Defined.

Lemma first_assignment_succeeds_witness :
  (d1 ← inst_setattr Unro (∅ : gmap string nat) "a" 1; getattr_with None d1 "a") = Ok 1
  ∧ (d1 ← type_setattr Unro (∅ : gmap string nat) "a" 1; getattr_with None d1 "a") = Ok 1.
Proof.
  destruct (first_assignment_succeeds Unro (∅ : gmap string nat) "a" 1 None (lookup_empty _))
    as (H1 & H2).
  split; [apply H1; discriminate|exact H2].
Defined.

Lemma write_once_refuses_second_assignment_witness :
  ∃ m, inst_setattr Readonly (<["a" := 1]> (∅ : gmap string nat)) "a" 2
       = Raise (AttributeError m)
       ∧ kind_of (AttributeError m) = PolicyViolation.
Proof.
  destruct (write_once_refuses_second_assignment Readonly (<["a" := 1]> ∅) "a" 1 2 None
              (lookup_insert_eq _ _ _)) as (H & _).
  apply (H _ eq_refl eq_refl).
Defined.

Lemma no_delete_refuses_deletion_witness :
  inst_delattr Undead (<["a" := 1]> (∅ : gmap string nat)) "a"
  = Raise (AttributeError class_no_deletion).
Proof.
  destruct (no_delete_refuses_deletion Undead (<["a" := 1]> (∅ : gmap string nat)) "a")
    as (H & _).
  apply (H _ eq_refl eq_refl).
Defined.

(** *** Further facts: reads after writes, lengths, sequences, shadowing *)

Section MoreFacts.
Context {V : Type}.
Implicit Types (d : gmap string V) (c : cls) (name key : string).

Lemma inst_delattr_Ok c d name d' :
  inst_delattr c d name = Ok d' → d' = delete name d ∧ is_Some (d !! name).
Proof.
  rewrite inst_delattr_cases.
  destruct (private_policy c) as [p|]; [|discriminate].
  destruct (no_delete p); [discriminate|].
  destruct (d !! name) as [v|]; [|discriminate]. intros [= <-]. eauto.
Qed.

Lemma type_delattr_Ok c d name d' :
  type_delattr c d name = Ok d' → d' = delete name d ∧ is_Some (d !! name).
Proof.
  rewrite type_delattr_cases.
  destruct (no_delete (shared_policy c)); [discriminate|].
  destruct (d !! name) as [v|]; [|discriminate]. intros [= <-]. eauto.
Qed.

Lemma setitem_Ok c d key (v : V) d' :
  setitem c d key v = Ok d' → defines_items c = true ∧ d' = <[key := v]> d.
Proof.
  destruct (defines_items c) eqn:Hm.
  - rewrite (setitem_stores c d key v Hm). intros [= <-]. eauto.
  - unfold setitem. rewrite Hm. discriminate.
Qed.

Lemma delitem_Ok c d key d' :
  delitem c d key = Ok d' →
  defines_items c = true ∧ d' = delete key d ∧ is_Some (d !! key).
Proof.
  destruct (defines_items c) eqn:Hm.
  - rewrite (delitem_removes c d key Hm).
    destruct (d !! key) as [v|]; [|discriminate]. intros [= <-]. eauto.
  - unfold delitem. rewrite Hm. discriminate.
Qed.

(** X4: on a mapping class an item and the attribute of the same name are
    one slot: what an item assignment stores is read back by item and by
    attribute, what an attribute assignment stores is read back by item, and
    after a deletion by either style the item read raises KeyError.  For a
    key that is not set the item read raises KeyError, but the item deletion
    raises AttributeError. *)
Theorem items_are_attributes c d key (v : V) (inherited : option V) :
  defines_items c = true →
  (d1 ← setitem c d key v; getitem c d1 key) = Ok v
  ∧ (d1 ← setitem c d key v; getattr_with inherited d1 key) = Ok v
  ∧ (∀ d1, inst_setattr c d key v = Ok d1 → getitem c d1 key = Ok v)
  ∧ (∀ d1, inst_delattr c d key = Ok d1 ∨ delitem c d key = Ok d1 →
       getitem c d1 key = Raise (KeyError key))
  ∧ (d !! key = None →
       getitem c d key = Raise (KeyError key)
       ∧ delitem c d key = Raise (AttributeError no_attribute)).
Proof.
  intros Hm. split; [|split; [|split; [|split]]].
  - rewrite setitem_stores by assumption. cbn [mbind result_bind].
    rewrite getitem_reads, lookup_insert_eq by assumption. reflexivity.
  - rewrite setitem_stores by assumption. cbn [mbind result_bind].
    apply getattr_with_own, lookup_insert_eq.
  - intros d1 Hset. apply inst_setattr_Ok in Hset as ->.
    rewrite getitem_reads, lookup_insert_eq by assumption. reflexivity.
  - intros d1 [Hdel|Hdel].
    + apply inst_delattr_Ok in Hdel as [-> _].
      rewrite getitem_reads, lookup_delete_eq by assumption. reflexivity.
    + apply delitem_Ok in Hdel as (_ & -> & _).
      rewrite getitem_reads, lookup_delete_eq by assumption. reflexivity.
  - intros Hd. rewrite getitem_reads, delitem_removes, Hd by assumption.
    split; reflexivity.
Qed.

(** X5: [len] of an instance counts the names set on it: an assignment that
    succeeds, by attribute or by item, adds one when the name was not set and
    leaves the length as it is when it was; a deletion that succeeds takes
    one off. *)
Theorem len_counts_names c d name (v : V) :
  (∀ d1, inst_setattr c d name v = Ok d1 ∨ setitem c d name v = Ok d1 →
     Base_len d1 = match d !! name with
                   | Some _ => Base_len d
                   | None => S (Base_len d)
                   end)
  ∧ (∀ d1, inst_delattr c d name = Ok d1 ∨ delitem c d name = Ok d1 →
     S (Base_len d1) = Base_len d).
Proof.
  unfold Base_len. split.
  - intros d1 Hset.
    assert (d1 = <[name := v]> d) as ->.
    { destruct Hset as [H|H]; [apply inst_setattr_Ok in H|apply setitem_Ok in H as [_ H]];
        exact H. }
    destruct (d !! name) as [v0|] eqn:Hd.
    + apply map_size_insert_Some. eauto.
    + apply map_size_insert_None. assumption.
  - intros d1 Hdel.
    assert (d1 = delete name d ∧ is_Some (d !! name)) as [-> [v0 Hd]].
    { destruct Hdel as [H|H]; [apply inst_delattr_Ok in H|apply delitem_Ok in H as [_ H]];
        exact H. }
    rewrite (map_size_delete_Some name d) by eauto.
    destruct (size d) eqn:Hs; [|reflexivity].
    apply map_size_empty_inv in Hs. subst d. rewrite lookup_empty in Hd. discriminate.
Qed.

(** *** Reading back what a construction stored *)

Lemma store_all_NoDup_size d (items : list (string * V)) :
  NoDup items.*1 → (∀ k, k ∈ items.*1 → d !! k = None) →
  size (store_all d items) = size d + length items.
Proof.
  revert d. induction items as [|[k' v'] items IH]; intros d Hnd Hfresh.
  - cbn. lia.
  - cbn in Hnd. apply NoDup_cons in Hnd as [Hout Hnd].
    rewrite store_all_cons, IH; [|assumption|].
    + rewrite map_size_insert_None; [cbn; lia|].
      apply Hfresh. cbn. apply elem_of_cons. left. reflexivity.
    + intros k Hk. rewrite lookup_insert_ne by (intros ->; contradiction).
      apply Hfresh. cbn. apply elem_of_cons. right. assumption.
Qed.

Lemma Map_init_result c (pairs : list (string * V)) :
  defines_items c = true → Map_init c ∅ pairs = Ok (store_all ∅ (py_dict pairs)).
Proof.
  intros Hm. unfold Map_init. destruct pairs as [|kv pairs]; [reflexivity|].
  apply setitem_each_stores. assumption.
Qed.

(** X6: what a mapping is built from can be read back from it: the item read
    of a key gives a value exactly when the dictionary collected from the
    arguments pairs the two, a key that was not among the arguments raises
    KeyError, and [len] is the number of distinct keys. *)
Theorem construction_reads_back c (pairs : list (string * V)) m :
  defines_items c = true →
  Map_init c ∅ pairs = Ok m →
  (∀ k v, getitem c m k = Ok v ↔ (k, v) ∈ py_dict pairs)
  ∧ (∀ k, k ∉ pairs.*1 → getitem c m k = Raise (KeyError k))
  ∧ Base_len m = length (py_dict pairs).
Proof.
  intros Hm. rewrite Map_init_result by assumption. intros [= <-].
  destruct (py_dict_spec pairs) as (Hnd & Hkeys & _).
  assert (Hlook : ∀ k v, store_all ∅ (py_dict pairs) !! k = Some v ↔ (k, v) ∈ py_dict pairs).
  { intros k v. rewrite store_all_NoDup_lookup by assumption. rewrite lookup_empty.
    split; [intros [H|[_ [=]]]; exact H|intros H; left; exact H]. }
  split; [|split].
  - intros k v. rewrite <- Hlook, getitem_reads by assumption.
    destruct (store_all ∅ (py_dict pairs) !! k); split; congruence.
  - intros k Hk. rewrite getitem_reads by assumption.
    destruct (store_all ∅ (py_dict pairs) !! k) as [v|] eqn:E; [|reflexivity].
    exfalso. apply Hk, Hkeys. apply Hlook in E.
    apply (list_elem_of_fmap_2 fst) in E. exact E.
  - unfold Base_len. rewrite store_all_NoDup_size; [rewrite map_size_empty; lia|assumption|].
    intros k _. apply lookup_empty.
Qed.

(** *** What stays true along any sequence of attribute operations *)

(** X7: in a no-delete namespace no sequence of attribute assignments and
    deletions that succeed, on names that are not reserved, ever unsets a
    name: the names set before are set after. *)
Theorem no_delete_keeps_names c d d' :
  (∀ p, private_policy c = Some p → no_delete p = true →
     rtc (inst_step c) d d' → dom d ⊆ dom d')
  ∧ (no_delete (shared_policy c) = true →
     rtc (type_step c) d d' → dom d ⊆ dom d').
Proof.
  split.
  - intros p Hp Hn Hr. induction Hr as [d|d d1 d2 Hstep _ IH]; [reflexivity|].
    transitivity (dom d1); [|exact IH].
    destruct Hstep as [name v _ H|name _ H].
    + apply inst_setattr_Ok in H as ->. apply dom_insert_subseteq.
    + rewrite inst_delattr_cases, Hp, Hn in H. discriminate.
  - intros Hn Hr. induction Hr as [d|d d1 d2 Hstep _ IH]; [reflexivity|].
    transitivity (dom d1); [|exact IH].
    destruct Hstep as [name v _ H|name _ H].
    + apply type_setattr_Ok in H as ->. apply dom_insert_subseteq.
    + rewrite type_delattr_cases, Hn in H. discriminate.
Qed.

(** X8: in a namespace that is write-once and no-delete a name, once set,
    keeps its value along every sequence of attribute assignments and
    deletions that succeed, on names that are not reserved. *)
Theorem assigned_once_for_ever c d d' name (v : V) :
  d !! name = Some v →
  (private_policy c = Some {| write_once := true; no_delete := true |} →
     rtc (inst_step c) d d' → d' !! name = Some v)
  ∧ (shared_policy c = {| write_once := true; no_delete := true |} →
     rtc (type_step c) d d' → d' !! name = Some v).
Proof.
  intros Hd. split.
  - intros Hp Hr. induction Hr as [d|d d1 d2 Hstep _ IH]; [assumption|].
    apply IH. destruct Hstep as [name' v' _ H|name' _ H].
    + rewrite inst_setattr_cases, Hp in H. cbn [write_once] in H.
      destruct (d !! name') eqn:E; [discriminate|]. injection H as <-.
      rewrite lookup_insert_ne by congruence. assumption.
    + rewrite inst_delattr_cases, Hp in H. discriminate.
  - intros Hp Hr. induction Hr as [d|d d1 d2 Hstep _ IH]; [assumption|].
    apply IH. destruct Hstep as [name' v' _ H|name' _ H].
    + rewrite type_setattr_cases, Hp in H. cbn [write_once] in H.
      destruct (d !! name') eqn:E; [discriminate|]. injection H as <-.
      rewrite lookup_insert_ne by congruence. assumption.
    + rewrite type_delattr_cases, Hp in H. discriminate.
Qed.

(** *** Shadowing *)

Lemma lookup_mro_head (cd : cls → gmap string V) c name :
  lookup_mro cd (mro c) name =
    match cd c !! name with
    | Some v => Some v
    | None => lookup_mro cd (mro_after c (mro c)) name
    end.
Proof. destruct c; reflexivity. Qed.

Lemma lookup_mro_ext (cd cd' : cls → gmap string V) (l : list cls) name :
  (∀ x, x ∈ l → cd x = cd' x) → lookup_mro cd l name = lookup_mro cd' l name.
Proof.
  induction l as [|x l IH]; intros H; [reflexivity|]. cbn [lookup_mro].
  rewrite (H x) by (apply elem_of_cons; left; reflexivity).
  rewrite IH; [reflexivity|]. intros y Hy. apply H, elem_of_cons. right. assumption.
Qed.

(** The attribute read on an instance of a name the instance does not hold
    is the read on its class. *)
Lemma getattr_instance_unset (w : world V) a c d name :
  heap w !! a = Some (c, d) → d !! name = None →
  getattr w (OnInstance a) name = getattr w (OnType c) name.
Proof.
  intros Ha Hd. unfold getattr. rewrite Ha. unfold getattr_with.
  rewrite Hd, lookup_mro_head. destruct (class_dict w c !! name); reflexivity.
Qed.

Lemma heap_lookup_set (w : world V) a c d d' :
  heap w !! a = Some (c, d) → heap (set_inst_dict w a c d') !! a = Some (c, d').
Proof. intros Ha. cbn. apply list_lookup_insert_eq. eapply lookup_lt_Some, Ha. Qed.

(** X9: a name set on the class does not keep an instance from setting it:
    on an instance (not of [ConstClass]) that does not hold the name, the
    attribute read gives what the class gives, the assignment succeeds,
    the instance then reads its own value while the class reads as before,
    and once the instance's attribute is deleted the instance reads what the
    class gives again. *)
Theorem instance_value_shadows_class (w : world V) a c d name (v : V) :
  heap w !! a = Some (c, d) → d !! name = None → c ≠ ConstClass →
  getattr w (OnInstance a) name = getattr w (OnType c) name
  ∧ ∃ w1, setattr w (OnInstance a) name v = Ok w1
      ∧ getattr w1 (OnInstance a) name = Ok v
      ∧ getattr w1 (OnType c) name = getattr w (OnType c) name
      ∧ ∀ w2, delattr w1 (OnInstance a) name = Ok w2 →
          getattr w2 (OnInstance a) name = getattr w (OnType c) name.
Proof.
  intros Ha Hd Hc. split; [apply (getattr_instance_unset w a c d); assumption|].
  exists (set_inst_dict w a c (<[name := v]> d)).
  pose proof (heap_lookup_set w a c d (<[name := v]> d) Ha) as Ha1.
  split; [|split; [|split; [reflexivity|]]].
  - cbn [setattr]. rewrite Ha, inst_setattr_cases, Hd.
    destruct (private_policy c) as [p|] eqn:Hp; [|destruct c; try discriminate; congruence].
    destruct (write_once p); reflexivity.
  - unfold getattr. rewrite Ha1. apply getattr_with_own, lookup_insert_eq.
  - intros w2. cbn [delattr]. rewrite Ha1.
    destruct (inst_delattr c (<[name := v]> d) name) as [d2|e] eqn:E; [|discriminate].
    cbn [mbind result_bind]. intros [= <-].
    apply inst_delattr_Ok in E as [-> _].
    rewrite (getattr_instance_unset _ a c (delete name (<[name := v]> d)) name).
    + reflexivity.
    + apply heap_lookup_set with (d := <[name := v]> d). exact Ha1.
    + apply lookup_delete_eq.
Qed.

(** X10: the write-once check of a class looks at the class's own
    [__dict__] only.  A name a class inherits and does not hold itself reads
    as the inherited value, can be assigned on the class whatever its
    metaclass, and then reads as the new value there, while every class that
    does not have this one in its MRO, its bases among them, reads as
    before. *)
Theorem subclass_may_shadow_inherited_name (w : world V) c name (v0 v : V) :
  class_dict w c !! name = None →
  lookup_mro (class_dict w) (mro_after c (mro c)) name = Some v0 →
  getattr w (OnType c) name = Ok v0
  ∧ ∃ w1, setattr w (OnType c) name v = Ok w1
      ∧ getattr w1 (OnType c) name = Ok v
      ∧ ∀ b n, c ∉ mro b → getattr w1 (OnType b) n = getattr w (OnType b) n.
Proof.
  intros Hd Hinh. split.
  - unfold getattr, getattr_with. rewrite Hd, Hinh. reflexivity.
  - exists (set_class_dict w c (<[name := v]> (class_dict w c))).
    split; [|split].
    + cbn [setattr]. rewrite type_setattr_cases, Hd.
      destruct (write_once (shared_policy c)); reflexivity.
    + unfold getattr. apply getattr_with_own. cbn.
      rewrite decide_True by reflexivity. apply lookup_insert_eq.
    + intros b n Hb.
      assert (Hsame : ∀ x, x ∈ mro b →
                class_dict (set_class_dict w c (<[name := v]> (class_dict w c))) x
                = class_dict w x).
      { intros x Hx. cbn. rewrite decide_False; [reflexivity|]. intros ->. contradiction. }
      unfold getattr. rewrite (Hsame b) by (rewrite mro_head; apply elem_of_cons; left; reflexivity).
      f_equal. apply lookup_mro_ext. intros x Hx. apply Hsame.
      rewrite mro_head. apply elem_of_cons. right. assumption.
Qed.

End MoreFacts.

(** *** The further facts at concrete inputs *)

Lemma items_are_attributes_witness :
  (d1 ← setitem Map (∅ : gmap string nat) "a" 1; getitem Map d1 "a") = Ok 1
  ∧ delitem Map (∅ : gmap string nat) "a" = Raise (AttributeError no_attribute).
Proof.
  destruct (items_are_attributes Map (∅ : gmap string nat) "a" 1 None eq_refl)
    as (H1 & _ & _ & _ & H2).
  split; [exact H1|]. apply H2. apply lookup_empty.
Defined.

Lemma len_counts_names_witness :
  Base_len (<["a" := 1]> (∅ : gmap string nat)) = 1.
Proof.
  destruct (len_counts_names ReadonlyMap (∅ : gmap string nat) "a" 1) as (H & _).
  apply (H _ (or_introl eq_refl)).
Defined.

Lemma construction_reads_back_witness :
  getitem Map (<["a" := 2]> (∅ : gmap string nat)) "a" = Ok 2
  ∧ Base_len (<["a" := 2]> (∅ : gmap string nat)) = 1.
Proof.
  destruct (construction_reads_back Map [("a", 1); ("a", 2)] (<["a" := 2]> ∅)
              eq_refl eq_refl) as (H1 & _ & H2).
  split; [|exact H2].
  apply H1. apply elem_of_cons. left. reflexivity.
Defined.

Lemma no_delete_keeps_names_witness :
  dom (<["a" := 1]> (∅ : gmap string nat)) ⊆ dom (<["b" := 2]> (<["a" := 1]> (∅ : gmap string nat))).
Proof.
  destruct (no_delete_keeps_names Undead (<["a" := 1]> (∅ : gmap string nat))
              (<["b" := 2]> (<["a" := 1]> ∅))) as (H & _).
  apply (H _ eq_refl eq_refl).
  apply rtc_once. apply (inst_step_set _ _ _ "b" 2); reflexivity.
Defined.

Lemma assigned_once_for_ever_witness :
  <["b" := 2]> (<["a" := 1]> (∅ : gmap string nat)) !! "a" = Some 1.
Proof.
  destruct (assigned_once_for_ever Unro (<["a" := 1]> (∅ : gmap string nat))
              (<["b" := 2]> (<["a" := 1]> ∅)) "a" 1 (lookup_insert_eq _ _ _)) as (H & _).
  apply (H eq_refl).
  apply rtc_once. apply (inst_step_set _ _ _ "b" 2); reflexivity.
Defined.

Lemma instance_value_shadows_class_witness :
  ∃ w1 : world nat,
    setattr (set_class_dict (new_instance empty_world Readonly).2 Readonly (<["a" := 1]> ∅))
      (OnInstance 0) "a" 2 = Ok w1
    ∧ getattr w1 (OnInstance 0) "a" = Ok 2.
Proof.
  destruct (instance_value_shadows_class
              (set_class_dict (new_instance (empty_world : world nat) Readonly).2 Readonly
                 (<["a" := 1]> ∅))
              0 Readonly ∅ "a" 2 eq_refl (lookup_empty _))
    as (_ & w1 & H1 & H2 & _); [discriminate|].
  exists w1. split; [exact H1|exact H2].
Defined.

Lemma subclass_may_shadow_inherited_name_witness :
  getattr (set_class_dict (empty_world : world nat) ClassUnro (<["a" := 1]> ∅))
    (OnType ConstClass) "a" = Ok 1
  ∧ ∃ w1 : world nat,
      setattr (set_class_dict empty_world ClassUnro (<["a" := 1]> ∅))
        (OnType ConstClass) "a" 2 = Ok w1
      ∧ getattr w1 (OnType ConstClass) "a" = Ok 2.
Proof.
  assert (Hinh : lookup_mro
                   (class_dict (set_class_dict (empty_world : world nat) ClassUnro
                                  (<["a" := 1]> ∅)))
                   (mro_after ConstClass (mro ConstClass)) "a" = Some 1)
    by (vm_compute; reflexivity).
  destruct (subclass_may_shadow_inherited_name
              (set_class_dict (empty_world : world nat) ClassUnro (<["a" := 1]> ∅))
              ConstClass "a" 1 2 (lookup_empty _) Hinh)
    as (H0 & w1 & H1 & H2 & _).
  split; [exact H0|]. exists w1. split; [exact H1|exact H2].
Defined.

End UnroFacts.

(** ** Facts about deprecate.py *)
Module DeprecateFacts.
Import Deprecate.



Section Facts.
Context {Version : Type}.
Variable parse : string → option Version.
Variable ver_ge : Version → Version → bool.
Context {Arg Res : Type}.
Context {wm : Warnings Arg Res}.
Implicit Types (f : pyobj Arg Res) (kw : kwargs).

Lemma parse_marker_empty (x : string) :
  nonempty x = false → parse_marker parse x = Ok (Unparsed x).
Proof. intros H. unfold parse_marker. rewrite H. reflexivity. Qed.

Lemma parse_marker_version (x : string) (v : Version) :
  nonempty x = true → parse x = Some v → parse_marker parse x = Ok (Parsed v).
Proof. intros H Hp. unfold parse_marker. rewrite H, Hp. reflexivity. Qed.

Lemma init_guard f kw :
  callable f = true ∨ nonempty (me kw) = true →
  negb (callable f) && negb (nonempty (me kw)) = false.
Proof. intros [H|H]; rewrite H; cbn; [reflexivity|apply andb_false_r]. Qed.

(** A non-callable is refused by [get_wrapper] whatever else the instance
    holds. *)
Lemma init_keeps_callable f kw (w : DepWrapper Arg Res) :
  DepWrapper_init parse ver_ge f kw = Ok w → func_callable w = callable f ∧ func w = f.
Proof.
  unfold DepWrapper_init.
  destruct (negb (callable f) && negb (nonempty (me kw))); [discriminate|].
  destruct (parse_marker parse (ver_cur kw)) as [c|]; [|discriminate].
  destruct (parse_marker parse (ver_dep kw)) as [d|]; [|discriminate].
  destruct (parse_marker parse (ver_end kw)) as [e|]; [|discriminate].
  cbn [mbind result_bind].
  destruct (compute_status ver_ge c d e) as [st|]; [|discriminate].
  cbn [mbind result_bind]. intros [= <-]. split; reflexivity.
Qed.

(** C8: with the three markers given and parsed, the status is unsupported
    when the current version is at least the removal version, else deprecated
    when it is at least the deprecation version, else OK; and with status OK
    the decorator hands back the function it was given, whose call emits no
    warning. *)
Theorem status_follows_versions f kw (vc vd ve : Version) :
  callable f = true ∨ nonempty (me kw) = true →
  nonempty (ver_cur kw) = true → parse (ver_cur kw) = Some vc →
  nonempty (ver_dep kw) = true → parse (ver_dep kw) = Some vd →
  nonempty (ver_end kw) = true → parse (ver_end kw) = Some ve →
  status <$> DepWrapper_init parse ver_ge f kw
    = Ok (if ver_ge vc ve then STATUS_UNSUPPORTED
          else if ver_ge vc vd then STATUS_DEPRECATED
          else STATUS_OK)
  ∧ (callable f = true → ver_ge vc ve = false → ver_ge vc vd = false →
     deprecator parse ver_ge kw f = Ok (Original f)
     ∧ ∀ a, invoke (Original f) a = ([Call f a], call f a)).
Proof.
  intros Hg Hc Hpc Hd Hpd He Hpe.
  unfold deprecator, DepWrapper_init.
  rewrite (init_guard f kw Hg).
  rewrite (parse_marker_version _ _ Hc Hpc), (parse_marker_version _ _ Hd Hpd),
    (parse_marker_version _ _ He Hpe).
  cbn [mbind result_bind compute_status marker_truth marker_ge deprecated_or_ok].
  split.
  - destruct (ver_ge vc ve); [reflexivity|].
    cbn [mbind result_bind]. destruct (ver_ge vc vd); reflexivity.
  - intros Hf Hve Hvd. rewrite Hve, Hvd. cbn [mbind result_bind].
    unfold get_wrapper, get_deprecation_wrapper. cbn [func_callable].
    rewrite Hf. split; reflexivity.
Qed.

(** C9: a non-callable is never decorated: without the 'me' name the
    constructor raises ValueError; when the constructor returns an instance,
    asking it for the wrapper raises NotImplementedError; so the decorator
    raises on it in every case. *)
Theorem non_callable_is_never_wrapped f kw :
  callable f = false →
  (nonempty (me kw) = false → DepWrapper_init parse ver_ge f kw = Raise ValueError)
  ∧ (∀ w, DepWrapper_init parse ver_ge f kw = Ok w →
       get_wrapper w = Raise NotImplementedError)
  ∧ (∃ e, deprecator parse ver_ge kw f = Raise e)
  ∧ (∀ d, deprecate parse ver_ge (Some f) kw = Applied (Ok d) → False).
Proof.
  intros Hf.
  assert (Hget : ∀ w, DepWrapper_init parse ver_ge f kw = Ok w →
            get_wrapper w = Raise NotImplementedError).
  { intros w Hw. apply init_keeps_callable in Hw as [Hc _].
    unfold get_wrapper, get_deprecation_wrapper. rewrite Hc, Hf. reflexivity. }
  assert (Hdec : ∃ e, deprecator parse ver_ge kw f = Raise e).
  { unfold deprecator.
    destruct (DepWrapper_init parse ver_ge f kw) as [w|e] eqn:E.
    - cbn [mbind result_bind]. rewrite (Hget w eq_refl). eexists. reflexivity.
    - eexists. reflexivity. }
  split; [|split; [assumption|split; [assumption|]]].
  - intros Hme. unfold DepWrapper_init. rewrite Hf, Hme. reflexivity.
  - intros d. unfold deprecate. destruct (truth f); [|discriminate].
    destruct Hdec as [e ->]. discriminate.
Qed.


End Facts.

(** *** The theorems at concrete inputs *)

(** C8, at the versions of the specification: deprecated from 1.5, removed
    in 3.0. *)
Lemma status_at_given_versions :
  status <$> DepWrapper_init parse_release tuple_ge (Callable "f" true S)
               (with_versions "2.0" "1.5" "3.0") = Ok STATUS_DEPRECATED
  ∧ status <$> DepWrapper_init parse_release tuple_ge (Callable "f" true S)
                 (with_versions "3.0" "1.5" "3.0") = Ok STATUS_UNSUPPORTED
  ∧ status <$> DepWrapper_init parse_release tuple_ge (Callable "f" true S)
                 (with_versions "1.0" "1.5" "3.0") = Ok STATUS_OK
  ∧ deprecator parse_release tuple_ge (with_versions "1.0" "1.5" "3.0") (Callable "f" true S)
    = Ok (Original (Callable "f" true S)).
Proof.
  split; [|split; [|split]].
  - destruct (status_follows_versions (wm := silent_warnings) parse_release tuple_ge (Callable "f" true S)
                (with_versions "2.0" "1.5" "3.0") [2] [1; 5] [3]
                (or_introl eq_refl) eq_refl eq_refl eq_refl eq_refl eq_refl eq_refl)
      as [H _].
    exact H.
  - destruct (status_follows_versions (wm := silent_warnings) parse_release tuple_ge (Callable "f" true S)
                (with_versions "3.0" "1.5" "3.0") [3] [1; 5] [3]
                (or_introl eq_refl) eq_refl eq_refl eq_refl eq_refl eq_refl eq_refl)
      as [H _].
    exact H.
  - destruct (status_follows_versions (wm := silent_warnings) parse_release tuple_ge (Callable "f" true S)
                (with_versions "1.0" "1.5" "3.0") [1] [1; 5] [3]
                (or_introl eq_refl) eq_refl eq_refl eq_refl eq_refl eq_refl eq_refl)
      as [H _].
    exact H.
  - destruct (status_follows_versions (wm := silent_warnings) parse_release tuple_ge (Callable "f" true S)
                (with_versions "1.0" "1.5" "3.0") [1] [1; 5] [3]
                (or_introl eq_refl) eq_refl eq_refl eq_refl eq_refl eq_refl eq_refl)
      as [_ H].
    apply (H eq_refl eq_refl eq_refl).
Defined.

Lemma non_callable_is_never_wrapped_witness :
  DepWrapper_init parse_release tuple_ge (NonCallable "42" true : pyobj nat nat) defaults
  = Raise ValueError
  ∧ ∃ w, DepWrapper_init parse_release tuple_ge (NonCallable "42" true : pyobj nat nat)
           (named "answer") = Ok w
         ∧ get_wrapper w = Raise NotImplementedError.
Proof.
  split.
  - destruct (non_callable_is_never_wrapped parse_release tuple_ge
                (NonCallable "42" true : pyobj nat nat) defaults eq_refl) as (H & _).
    apply H. reflexivity.
  - destruct (non_callable_is_never_wrapped parse_release tuple_ge
                (NonCallable "42" true : pyobj nat nat) (named "answer") eq_refl)
      as (_ & H & _).
    eexists. split; [reflexivity|]. apply H. reflexivity.
Defined.



(** *** Further facts: what the decorator returns and when it raises *)

Section MoreFacts.
Context {Version : Type}.
Variable parse : string → option Version.
Variable ver_ge : Version → Version → bool.
Context {Arg Res : Type}.
Context {wm : Warnings Arg Res}.
Implicit Types (f : pyobj Arg Res) (kw : kwargs).

(** What [__init__] stores is what it was given. *)
Lemma init_fields f kw (w : DepWrapper Arg Res) :
  DepWrapper_init parse ver_ge f kw = Ok w →
  func_callable w = callable f ∧ func w = f
  ∧ self_do_at_dep w = do_at_dep kw ∧ self_do_at_end w = do_at_end kw
  ∧ self_stacklevel w = stacklevel kw.
Proof.
  unfold DepWrapper_init.
  destruct (negb (callable f) && negb (nonempty (me kw))); [discriminate|].
  destruct (parse_marker parse (ver_cur kw)) as [c|]; [|discriminate].
  destruct (parse_marker parse (ver_dep kw)) as [d|]; [|discriminate].
  destruct (parse_marker parse (ver_end kw)) as [e|]; [|discriminate].
  cbn [mbind result_bind].
  destruct (compute_status ver_ge c d e) as [st|]; [|discriminate].
  cbn [mbind result_bind]. intros [= <-]. repeat split; reflexivity.
Qed.

(** X11: for a callable the decorator never fails once the instance is
    built, and what it returns follows the status: the function itself when
    the status is OK, otherwise the wrapper, with a DeprecatedWarning and the
    [do_at_dep] action when deprecated, an UnsupportedWarning and the
    [do_at_end] action when unsupported, and the [stacklevel] given.  A call
    of the result either ends with the call of the function and returns what
    the function returns, or ends inside the warnings module, which raised,
    without the function being called; the latter only for a wrapper, and
    never when the warnings module raises nothing. *)
Theorem decoration_follows_status f kw (w : DepWrapper Arg Res) :
  callable f = true →
  DepWrapper_init parse ver_ge f kw = Ok w →
  ∃ d, deprecator parse ver_ge kw f = Ok d
    ∧ match status w with
      | STATUS_OK => d = Original f
      | STATUS_DEPRECATED =>
          ∃ msg, d = Wrapper (DeprecatedWarning msg) (do_at_dep kw) (stacklevel kw) f
      | STATUS_UNSUPPORTED =>
          ∃ msg, d = Wrapper (UnsupportedWarning msg) (do_at_end kw) (stacklevel kw) f
      end
    ∧ ∀ a,
        ((invoke d a).2 = call f a ∧ last (invoke d a).1 = Some (Call f a))
        ∨ ((invoke d a).2 = Raise RaisedByWarnings
           ∧ (Call f a ∉ (invoke d a).1)
           ∧ (∃ calls, warnings_raise calls = true)
           ∧ d ≠ Original f).
Proof.
  intros Hf Hw. destruct (init_fields f kw w Hw) as (Hc & Hfn & Hdep & Hend & Hsl).
  assert (Hwrap : ∀ wrn filter_wrn level a,
    ((invoke (Wrapper wrn filter_wrn level f) a).2 = call f a
     ∧ last (invoke (Wrapper wrn filter_wrn level f) a).1 = Some (Call f a))
    ∨ ((invoke (Wrapper wrn filter_wrn level f) a).2 = Raise RaisedByWarnings
       ∧ (Call f a ∉ (invoke (Wrapper wrn filter_wrn level f) a).1)
       ∧ (∃ calls, warnings_raise calls = true)
       ∧ Wrapper wrn filter_wrn level f ≠ Original f)).
  { intros wrn fw level a. cbn [invoke].
    destruct (nonempty fw && warnings_raise
                (if nonempty fw then [SimpleFilter fw (class_of wrn)] else []))
      eqn:E1.
    - right. apply andb_true_iff in E1 as [E0 E1]. rewrite E0 in *. cbn [fst snd].
      split; [reflexivity|]. split; [|split; [eauto|discriminate]].
      rewrite list_elem_of_singleton. discriminate.
    - destruct (warnings_raise
                  ((if nonempty fw then [SimpleFilter fw (class_of wrn)] else [])
                     ++ [Warn wrn level])%list) eqn:E2.
      + right. cbn [fst snd]. split; [reflexivity|]. split; [|split; [eauto|discriminate]].
        rewrite elem_of_app, list_elem_of_singleton.
        destruct (nonempty fw).
        * rewrite list_elem_of_singleton. intros [?|?]; discriminate.
        * rewrite elem_of_nil. intros [[]|?]; discriminate.
      + left. cbn [fst snd]. split; [reflexivity|].
        rewrite last_app. reflexivity. }
  unfold deprecator. rewrite Hw. cbn [mbind result_bind].
  unfold get_wrapper, get_deprecation_wrapper. rewrite Hc, Hf.
  unfold get_deprecation_function, get_deprecation_warning_config.
  destruct (status w); cbn [fmap result_fmap snd func self_stacklevel];
    rewrite ?Hfn, ?Hdep, ?Hend, ?Hsl; eexists; (split; [reflexivity|]).
  - split; [reflexivity|]. intros a. left. split; reflexivity.
  - split; [eexists; reflexivity|]. intros a. apply Hwrap.
  - split; [eexists; reflexivity|]. intros a. apply Hwrap.
Qed.

(** X12: the texts given as [msg_dep] and [msg_end] are stored and never
    used: the decorator returns the same, or raises the same, whatever they
    are. *)
Theorem custom_messages_are_ignored f kw (dep_text end_text : string) :
  deprecator parse ver_ge (with_messages kw dep_text end_text) f
  = deprecator parse ver_ge kw f.
Proof.
  unfold deprecator, DepWrapper_init. cbn [with_messages me by_ ver_cur ver_dep ver_end
    msg_dep msg_end do_at_dep do_at_end stacklevel].
  destruct (negb (callable f) && negb (nonempty (me kw))); [reflexivity|].
  destruct (parse_marker parse (ver_cur kw)) as [c|]; [|reflexivity].
  destruct (parse_marker parse (ver_dep kw)) as [d|]; [|reflexivity].
  destruct (parse_marker parse (ver_end kw)) as [e|]; [|reflexivity].
  cbn [mbind result_bind].
  destruct (compute_status ver_ge c d e) as [st|]; [|reflexivity].
  cbn [mbind result_bind]. unfold get_wrapper, get_deprecation_wrapper. cbn [func_callable].
  destruct (callable f); [|reflexivity].
  unfold get_deprecation_function, get_deprecation_warning_config.
  destruct st; reflexivity.
Qed.

(** X13: the markers are compared as they come, a version with a version and
    an empty string with an empty string; a version against an empty string
    is a TypeError at decoration time.  So with no removal version, giving
    only the current or only the deprecation version raises; with a removal
    version, leaving the current version out raises, and leaving the
    deprecation version out raises unless the current version has reached
    the removal version. *)
Theorem lone_marker_is_a_TypeError f kw :
  callable f = true ∨ nonempty (me kw) = true →
  (∀ v, ver_end kw = "" → ver_dep kw = "" →
     nonempty (ver_cur kw) = true → parse (ver_cur kw) = Some v →
     DepWrapper_init parse ver_ge f kw = Raise TypeError)
  ∧ (∀ v, ver_end kw = "" → ver_cur kw = "" →
     nonempty (ver_dep kw) = true → parse (ver_dep kw) = Some v →
     DepWrapper_init parse ver_ge f kw = Raise TypeError)
  ∧ (∀ ve md, ver_cur kw = "" →
     parse_marker parse (ver_dep kw) = Ok md →
     nonempty (ver_end kw) = true → parse (ver_end kw) = Some ve →
     DepWrapper_init parse ver_ge f kw = Raise TypeError)
  ∧ (∀ vc ve, ver_dep kw = "" →
     nonempty (ver_cur kw) = true → parse (ver_cur kw) = Some vc →
     nonempty (ver_end kw) = true → parse (ver_end kw) = Some ve →
     status <$> DepWrapper_init parse ver_ge f kw
     = if ver_ge vc ve then Ok STATUS_UNSUPPORTED else Raise TypeError).
Proof.
  intros Hg. unfold DepWrapper_init. rewrite (init_guard f kw Hg).
  split; [|split; [|split]].
  - intros v He Hd Hc Hp. rewrite He, Hd.
    rewrite (parse_marker_version parse _ _ Hc Hp), !parse_marker_empty by reflexivity.
    reflexivity.
  - intros v He Hc Hd Hp. rewrite He, Hc.
    rewrite (parse_marker_version parse _ _ Hd Hp), !parse_marker_empty by reflexivity.
    reflexivity.
  - intros ve md Hc Hd He Hp. rewrite Hc, Hd.
    rewrite (parse_marker_version parse _ _ He Hp), parse_marker_empty by reflexivity.
    reflexivity.
  - intros vc ve Hd Hc Hpc He Hpe. rewrite Hd.
    rewrite (parse_marker_version parse _ _ Hc Hpc), (parse_marker_version parse _ _ He Hpe),
      parse_marker_empty by reflexivity.
    cbn [mbind result_bind compute_status marker_truth marker_ge].
    destruct (ver_ge vc ve); reflexivity.
Qed.

(** X14: the three markers are parsed before anything is compared, so a
    marker that is not empty and that [version.parse] rejects makes the
    constructor raise InvalidVersion, whichever of the three it is and
    whatever the other two are. *)
Theorem unparsable_marker_is_reported f kw (x : string) :
  callable f = true ∨ nonempty (me kw) = true →
  x ∈ [ver_cur kw; ver_dep kw; ver_end kw] →
  nonempty x = true → parse x = None →
  DepWrapper_init parse ver_ge f kw = Raise InvalidVersion.
Proof.
  intros Hg Hx Hne Hp.
  assert (Hbad : parse_marker parse x = Raise InvalidVersion).
  { unfold parse_marker. rewrite Hne, Hp. reflexivity. }
  assert (Hany : ∀ y, (∃ m, parse_marker parse y = Ok m)
                      ∨ parse_marker parse y = Raise InvalidVersion).
  { intros y. unfold parse_marker. destruct (nonempty y); [|eauto].
    destruct (parse y); eauto. }
  unfold DepWrapper_init. rewrite (init_guard f kw Hg).
  rewrite !elem_of_cons, elem_of_nil in Hx.
  destruct (Hany (ver_cur kw)) as [[mc Hc]|Hc]; rewrite Hc; [|reflexivity].
  destruct (Hany (ver_dep kw)) as [[md Hd]|Hd]; rewrite Hd; [|reflexivity].
  destruct (Hany (ver_end kw)) as [[me' He]|He]; rewrite He; [|reflexivity].
  destruct Hx as [-> |[-> |[-> |[]]]]; congruence.
Qed.

(** X15: without a removal version the status is never unsupported: with the
    current and the deprecation version given and parsed, it is deprecated
    when the current version is at least the deprecation version, and OK
    otherwise. *)
Theorem without_removal_version f kw (vc vd : Version) :
  callable f = true ∨ nonempty (me kw) = true →
  ver_end kw = "" →
  nonempty (ver_cur kw) = true → parse (ver_cur kw) = Some vc →
  nonempty (ver_dep kw) = true → parse (ver_dep kw) = Some vd →
  status <$> DepWrapper_init parse ver_ge f kw
  = Ok (if ver_ge vc vd then STATUS_DEPRECATED else STATUS_OK).
Proof.
  intros Hg He Hc Hpc Hd Hpd. unfold DepWrapper_init.
  rewrite (init_guard f kw Hg), He.
  rewrite (parse_marker_version parse _ _ Hc Hpc), (parse_marker_version parse _ _ Hd Hpd),
    parse_marker_empty by reflexivity.
  cbn [mbind result_bind compute_status marker_truth nonempty marker_ge deprecated_or_ok].
  cbn. destruct (ver_ge vc vd); reflexivity.
Qed.

(** X16: the text of the warning.  With the three markers given and parsed,
    the wrapper of a callable carries "`name` is deprecated", or "`name` was
    deprecated" once the removal version is reached, then the replacement
    when one is named, then the deprecation version, the removal version and
    the current version, in this order; the name is the 'me' argument, or
    the [repr] of the function without it. *)
Theorem warning_text f kw (vc vd ve : Version) :
  callable f = true →
  nonempty (ver_cur kw) = true → parse (ver_cur kw) = Some vc →
  nonempty (ver_dep kw) = true → parse (ver_dep kw) = Some vd →
  nonempty (ver_end kw) = true → parse (ver_end kw) = Some ve →
  (ver_ge vc ve = true →
     deprecator parse ver_ge kw f
     = Ok (Wrapper
             (UnsupportedWarning
                (("`" ++ (if nonempty (me kw) then me kw else repr f) ++ "` was deprecated")
                 ++ decorate_if " by `" (by_ kw) "`"
                 ++ (" from version `" ++ ver_dep kw ++ "`")
                 ++ (" and planned to be removed in version `" ++ ver_end kw ++ "`")
                 ++ (". Current version `" ++ ver_cur kw ++ "`")))
             (do_at_end kw) (stacklevel kw) f))
  ∧ (ver_ge vc ve = false → ver_ge vc vd = true →
     deprecator parse ver_ge kw f
     = Ok (Wrapper
             (DeprecatedWarning
                (("`" ++ (if nonempty (me kw) then me kw else repr f) ++ "` is deprecated")
                 ++ decorate_if " by `" (by_ kw) "`"
                 ++ (" from version `" ++ ver_dep kw ++ "`")
                 ++ (" and will be removed in version `" ++ ver_end kw ++ "`")
                 ++ (". Current version `" ++ ver_cur kw ++ "`")))
             (do_at_dep kw) (stacklevel kw) f)).
Proof.
  intros Hf Hc Hpc Hd Hpd He Hpe.
  unfold deprecator, DepWrapper_init. rewrite Hf. cbn [negb andb].
  rewrite (parse_marker_version parse _ _ Hc Hpc), (parse_marker_version parse _ _ Hd Hpd),
    (parse_marker_version parse _ _ He Hpe).
  cbn [mbind result_bind compute_status marker_truth marker_ge deprecated_or_ok].
  split.
  - intros Hve. rewrite Hve. cbn [mbind result_bind].
    unfold get_wrapper, get_deprecation_wrapper, get_deprecation_function,
      get_deprecation_warning_config, decorate_if.
    cbn [func_callable status self_me self_by self_ver_cur self_ver_dep self_ver_end
         self_do_at_end self_do_at_dep self_stacklevel func fmap result_fmap snd].
    rewrite Hc, Hd, He. reflexivity.
  - intros Hve Hvd. rewrite Hve, Hvd. cbn [mbind result_bind].
    unfold get_wrapper, get_deprecation_wrapper, get_deprecation_function,
      get_deprecation_warning_config, decorate_if.
    cbn [func_callable status self_me self_by self_ver_cur self_ver_dep self_ver_end
         self_do_at_end self_do_at_dep self_stacklevel func fmap result_fmap snd].
    rewrite Hc, Hd, He. reflexivity.
Qed.

End MoreFacts.

(** *** The further facts at concrete inputs *)

Lemma decoration_follows_status_witness :
  ∃ d, deprecator parse_release tuple_ge (with_versions "2.0" "1.5" "3.0")
         (Callable "f" true S) = Ok d
       ∧ (invoke (wm := silent_warnings) d 3).2 = call (Callable "f" true S) 3.
Proof.
  destruct (decoration_follows_status (wm := silent_warnings) parse_release tuple_ge
              (Callable "f" true S) (with_versions "2.0" "1.5" "3.0") _ eq_refl eq_refl)
    as (d & Hd & _ & Hcall).
  exists d. split; [exact Hd|].
  destruct (Hcall 3) as [[H _]|(_ & _ & [calls Hc] & _)]; [exact H|discriminate Hc].
Defined.

Lemma lone_marker_is_a_TypeError_witness :
  DepWrapper_init parse_release tuple_ge (Callable "f" true S : pyobj nat nat)
    (with_versions "1.0" "" "") = Raise TypeError.
Proof.
  destruct (lone_marker_is_a_TypeError parse_release tuple_ge
              (Callable "f" true S : pyobj nat nat) (with_versions "1.0" "" "")
              (or_introl eq_refl)) as (H & _).
  apply (H [1]); reflexivity.
Defined.

Lemma unparsable_marker_is_reported_witness :
  DepWrapper_init parse_release tuple_ge (Callable "f" true S : pyobj nat nat)
    (with_versions "1.0" "soon" "") = Raise InvalidVersion.
Proof.
  apply (unparsable_marker_is_reported parse_release tuple_ge
           (Callable "f" true S : pyobj nat nat) (with_versions "1.0" "soon" "") "soon"
           (or_introl eq_refl)).
  - apply elem_of_cons. right. apply elem_of_cons. left. reflexivity.
  - reflexivity.
  - reflexivity.
Defined.

Lemma without_removal_version_witness :
  status <$> DepWrapper_init parse_release tuple_ge (Callable "f" true S : pyobj nat nat)
               (with_versions "2.0" "1.5" "") = Ok STATUS_DEPRECATED.
Proof.
  apply (without_removal_version parse_release tuple_ge
           (Callable "f" true S : pyobj nat nat) (with_versions "2.0" "1.5" "") [2] [1; 5]
           (or_introl eq_refl) eq_refl eq_refl eq_refl eq_refl eq_refl).
Defined.

Lemma warning_text_witness :
  deprecator parse_release tuple_ge (with_versions "2.0" "1.5" "3.0") (Callable "f" true S)
  = Ok (Wrapper
          (DeprecatedWarning
             "`f` is deprecated from version `1.5` and will be removed in version `3.0`. Current version `2.0`")
          "" 2 (Callable "f" true S)).
Proof.
  destruct (warning_text parse_release tuple_ge (Callable "f" true S)
              (with_versions "2.0" "1.5" "3.0") [2] [1; 5] [3]
              eq_refl eq_refl eq_refl eq_refl eq_refl eq_refl eq_refl) as (_ & H).
  apply (H eq_refl eq_refl).
Defined.

End DeprecateFacts.
